(** * kilterboard-canvas: the Bluetooth framing core of [script.js]

    A shallow embedding of the pure functions of [src/script.js]
    ([checksum], [wrapBytes], [encodePosition], [encodeColor],
    [encodePositionAndColor], [getBluetoothPacket], [splitEvery]) and the
    properties of the wire format proved about them.

    Conventions of the embedding:
    - array elements and all results of bitwise operators are integers [Z];
    - a JavaScript number that may be fractional or NaN is a [number];
      the only fractional values the code builds are integers divided by 32
      or 64, which binary floating point represents exactly, so a rational
      stands for them without rounding;
    - a JavaScript string is a [string] of 8-bit code units;
    - an object used as a dictionary is a [gmap] from [string];
    - a function that can throw returns a [completion]. *)

From Stdlib Require Import ZArith QArith Lia.
From Stdlib Require Import Strings.String Strings.Ascii.
From stdpp Require Import gmap strings list fin_maps.
From Equations Require Import Equations.

Local Open Scope Z_scope.

(** ** Constants (script.js, lines 8-13) *)

Definition MAX_BLUETOOTH_MESSAGE_SIZE : Z := 20.
Definition MESSAGE_BODY_MAX_LENGTH : Z := 255.
Definition PACKET_MIDDLE : Z := 81.
Definition PACKET_FIRST : Z := 82.
Definition PACKET_LAST : Z := 83.
Definition PACKET_ONLY : Z := 84.

(** ** JavaScript numbers and the 32-bit integer operators *)

Module JS.

(** A number: NaN, or a finite value. *)
Inductive number : Type :=
| NaN : number
| Num : Q -> number.

Definition of_int (z : Z) : number := Num (inject_Z z).

(** Rounding towards zero, the first step of ToInt32. *)
Definition truncate (q : Q) : Z := Z.quot (Qnum q) (Zpos (Qden q)).

(** Reduction modulo 2^32 into the signed range, the second step. *)
Definition wrap32 (z : Z) : Z := (z + 2 ^ 31) mod 2 ^ 32 - 2 ^ 31.

Definition ToInt32 (x : number) : Z :=
  match x with
  | NaN => 0
  | Num q => wrap32 (truncate q)
  end.

(** [a & b], [a | b], [~a], [a << k], [a >> k]. *)
Definition band (a b : number) : Z := Z.land (ToInt32 a) (ToInt32 b).
Definition bor (a b : number) : Z := Z.lor (ToInt32 a) (ToInt32 b).
Definition bnot (a : number) : Z := Z.lnot (ToInt32 a).
Definition shl (a : number) (k : Z) : Z :=
  wrap32 (Z.shiftl (ToInt32 a) (Z.land k 31)).
Definition sar (a : number) (k : Z) : Z :=
  Z.shiftr (ToInt32 a) (Z.land k 31).

(** [a / d] for an integer divisor [d]; NaN propagates. *)
Definition div (a : number) (d : Z) : number :=
  match a with
  | NaN => NaN
  | Num q => Num (q / inject_Z d)
  end.

(** [array.length]. *)
Definition len {A : Type} (l : list A) : Z := Z.of_nat (length l).

(** [array.slice(start, stop)] for [0 <= start]: the elements at the
    indices [start .. min stop length - 1]. *)
Definition slice {A : Type} (start stop : Z) (l : list A) : list A :=
  take (Z.to_nat (stop - start)) (drop (Z.to_nat start) l).

(** What a call completes with: a value, or a thrown exception. *)
Inductive exn : Type :=
| TypeError : exn
| Error : string -> exn.

Inductive completion (A : Type) : Type :=
| Returns : A -> completion A
| Throws : exn -> completion A.
Arguments Returns {A} _.
Arguments Throws {A} _.

Definition bind {A B : Type} (c : completion A) (k : A -> completion B)
  : completion B :=
  match c with
  | Returns a => k a
  | Throws e => Throws e
  end.

(** [Number(v)] for a dictionary read: a missing entry reads as
    [undefined], which converts to NaN. *)
Definition Number (v : option Z) : number :=
  match v with
  | Some z => of_int z
  | None => NaN
  end.

(** [Uint8Array.from(array)]: every element is reduced modulo 2^8. *)
Definition Uint8Array_from (l : list Z) : list Z :=
  map (fun v => v mod 256) l.

(** *** Strings *)

(** [s.substring(start, stop)] for [start <= stop], clamped to [s]. *)
Definition substring (start stop : nat) (s : string) : string :=
  String.substring start (stop - start) s.

(** [s.split(sep)] for a separator of one character. *)
Fixpoint split (sep : ascii) (s : string) : list string :=
  match s with
  | EmptyString => [EmptyString]
  | String c rest =>
      if Ascii.eqb c sep then EmptyString :: split sep rest
      else match split sep rest with
           | [] => [String c EmptyString]
           | piece :: pieces => String c piece :: pieces
           end
  end.

(** White space that [parseInt] skips, among 8-bit code units: TAB, LF,
    VT, FF, CR, SP and NBSP. *)
Definition is_white_space (c : ascii) : bool :=
  let n := N_of_ascii c in
  (((9 <=? n) && (n <=? 13)) || (n =? 32) || (n =? 160))%N.

Definition hex_digit_value (c : ascii) : option Z :=
  let n := Z.of_N (N_of_ascii c) in
  if (48 <=? n) && (n <=? 57) then Some (n - 48)
  else if (65 <=? n) && (n <=? 70) then Some (n - 55)
  else if (97 <=? n) && (n <=? 102) then Some (n - 87)
  else None.

Fixpoint skip_white_space (s : string) : string :=
  match s with
  | String c rest => if is_white_space c then skip_white_space rest else s
  | EmptyString => s
  end.

(** The value of the longest prefix of hexadecimal digits, [None] when
    that prefix is empty. *)
Fixpoint parse_hex_digits (acc : option Z) (s : string) : option Z :=
  match s with
  | String c rest =>
      match hex_digit_value c with
      | Some d => parse_hex_digits (Some (16 * default 0 acc + d)) rest
      | None => acc
      end
  | EmptyString => acc
  end.

(** [parseInt(s, 16)]: skip white space, read a sign, drop a [0x] or
    [0X] prefix, read hexadecimal digits; NaN when there is none. The
    value is exact below 2^53, and the callers pass two characters. *)
Definition parseInt16 (s : string) : number :=
  let s1 := skip_white_space s in
  let '(sign, s2) :=
    match s1 with
    | String "-" rest => (-1, rest)
    | String "+" rest => (1, rest)
    | _ => (1, s1)
    end in
  let s3 :=
    match s2 with
    | String "0" (String "x" rest) => rest
    | String "0" (String "X" rest) => rest
    | _ => s2
    end in
  match parse_hex_digits None s3 with
  | Some v => of_int (sign * v)
  | None => NaN
  end.

(** The property names every plain object inherits from
    [Object.prototype]. Reading one of them from a dictionary that has no
    such entry of its own gives a function (or, for [__proto__], an
    object), never [undefined]. *)
Definition object_prototype_names : list string :=
  ["constructor"; "hasOwnProperty"; "isPrototypeOf"; "propertyIsEnumerable";
   "toLocaleString"; "toString"; "valueOf"; "__proto__";
   "__defineGetter__"; "__defineSetter__";
   "__lookupGetter__"; "__lookupSetter__"]%string.

Definition inherited (key : string) : bool :=
  existsb (String.eqb key) object_prototype_names.

(** [for (const x of l) st = body(st, x)] where the body may throw. *)
Fixpoint foldM {S A : Type} (body : S -> A -> completion S)
    (l : list A) (st : S) : completion S :=
  match l with
  | [] => Returns st
  | x :: rest => bind (body st x) (foldM body rest)
  end.

End JS.

(** ** checksum (script.js, lines 21-27) *)

Definition checksum_step (i value : Z) : Z :=
  JS.band (JS.of_int (i + value)) (JS.of_int 255).

Definition checksum (data : list Z) : Z :=
  let i := fold_left checksum_step data 0 in
  JS.band (JS.of_int (JS.bnot (JS.of_int i))) (JS.of_int 255).

(** ** wrapBytes (script.js, lines 29-35) *)

Definition wrapBytes (data : list Z) : list Z :=
  if JS.len data >? MESSAGE_BODY_MAX_LENGTH then []
  else [1; JS.len data; checksum data; 2] ++ data ++ [3].

(** ** encodePosition (script.js, lines 37-41) *)

Definition encodePosition (position : JS.number) : list Z :=
  let position1 := JS.band position (JS.of_int 255) in
  let position2 :=
    JS.sar (JS.of_int (JS.band position (JS.of_int 65280))) 8 in
  [position1; position2].


(** ** encodeColor (script.js, lines 43-56) *)

Definition encodeColor (color : string) : Z :=
  let substring := JS.substring 0 2 color in
  let substring2 := JS.substring 2 4 color in
  let parsedSubstring := JS.div (JS.parseInt16 substring) 32 in
  let parsedSubstring2 := JS.div (JS.parseInt16 substring2) 32 in
  let parsedResult :=
    JS.bor (JS.of_int (JS.shl parsedSubstring 5))
           (JS.of_int (JS.shl parsedSubstring2 2)) in
  let substring3 := JS.substring 4 6 color in
  let parsedSubstring3 := JS.div (JS.parseInt16 substring3) 64 in
  let finalParsedResult := JS.bor (JS.of_int parsedResult) parsedSubstring3 in
  finalParsedResult.

(** ** encodePositionAndColor (script.js, lines 58-60) *)

Definition encodePositionAndColor (position : JS.number) (ledColor : string)
  : list Z :=
  encodePosition position ++ [encodeColor ledColor].

(** ** getBluetoothPacket (script.js, lines 62-95) *)

(** The two arrays the [forEach] callback updates. *)
Record splitter : Type := Splitter {
  resultArray : list (list Z);
  tempArray : list Z
}.

(** Lines 68-71: [frame.split("r")] gives the placement and, when the
    frame holds an [r], the role. [placementPositions] maps a placement to
    an integer; a missing entry, and likewise an inherited property, reads
    as a value that [Number] turns into NaN. The colour is
    [colors[role] || role]: the entry of [colors] unless it is missing or
    empty. A frame with no [r] leaves [role] undefined; the dictionary is
    then read at the key ["undefined"], and [encodeColor(undefined)]
    throws a TypeError at [color.substring]. So does a role that names an
    inherited property of [colors]: the colour is then a function, which
    has no [substring]. [color = None] stands for both. *)
Definition encodeFrame (placementPositions : gmap string Z)
    (colors : gmap string string) (frame : string)
  : JS.completion (list Z) :=
  let parts := JS.split "r" frame in
  let placement := default EmptyString (parts !! 0%nat) in
  let role : option string := parts !! 1%nat in
  let position := JS.Number (placementPositions !! placement) in
  let color : option string :=
    match colors !! default "undefined"%string role with
    | Some c => if 0 <? Z.of_nat (String.length c) then Some c else role
    | None =>
        if JS.inherited (default "undefined"%string role) then None else role
    end in
  match color with
  | Some ledColor => JS.Returns (encodePositionAndColor position ledColor)
  | None => JS.Throws JS.TypeError
  end.

(** Lines 72-76: close the buffer when it cannot take three more bytes,
    then append the encoded frame. *)
Definition pushFrame (st : splitter) (encodedFrame : list Z) : splitter :=
  let st' :=
    if JS.len (tempArray st) + 3 >? MESSAGE_BODY_MAX_LENGTH
    then Splitter (resultArray st ++ [tempArray st]) [PACKET_MIDDLE]
    else st in
  Splitter (resultArray st') (tempArray st' ++ encodedFrame).

(** Lines 65-78: the callback of [forEach]. *)
Definition forEachFrame (placementPositions : gmap string Z)
    (colors : gmap string string) (st : splitter) (frame : string)
  : JS.completion splitter :=
  if 0 <? Z.of_nat (String.length frame) then
    JS.bind (encodeFrame placementPositions colors frame)
            (fun encodedFrame => JS.Returns (pushFrame st encodedFrame))
  else JS.Returns st.

(** [packet[0] = marker]; on an empty array the assignment creates the
    element. *)
Definition setMarker (marker : Z) (packet : list Z) : list Z :=
  match packet with
  | [] => [marker]
  | _ :: rest => marker :: rest
  end.

(** Lines 82-87. The packets are distinct arrays, so the two assignments
    of the second branch touch different elements. *)
Definition assignMarkers (resultArray : list (list Z)) : list (list Z) :=
  if JS.len resultArray =? 1 then
    alter (setMarker PACKET_ONLY) 0%nat resultArray
  else if JS.len resultArray >? 1 then
    let marked := alter (setMarker PACKET_FIRST) 0%nat resultArray in
    alter (setMarker PACKET_LAST) (length marked - 1)%nat marked
  else resultArray.

Definition initialSplitter : splitter := Splitter [] [PACKET_MIDDLE].

(** Lines 63-87: the logical packets, with their role markers. *)
Definition logicalPackets (frames : string)
    (placementPositions : gmap string Z) (colors : gmap string string)
  : JS.completion (list (list Z)) :=
  JS.bind
    (JS.foldM (forEachFrame placementPositions colors)
              (JS.split "p" frames) initialSplitter)
    (fun st => JS.Returns (assignMarkers (resultArray st ++ [tempArray st]))).

(** Lines 89-94: wrap every packet and concatenate. *)
Definition wrapPackets (resultArray : list (list Z)) : list Z :=
  fold_left (fun finalResultArray currentArray =>
               finalResultArray ++ wrapBytes currentArray)
            resultArray [].

Definition getBluetoothPacket (frames : string)
    (placementPositions : gmap string Z) (colors : gmap string string)
  : JS.completion (list Z) :=
  JS.bind (logicalPackets frames placementPositions colors)
          (fun resultArray =>
             JS.Returns (JS.Uint8Array_from (wrapPackets resultArray))).

(** ** splitEvery (script.js, lines 97-107) *)

(** Lines 103-105, reached only with [0 < n]: every turn moves [idx]
    forward by [n], which is why the loop ends. *)
Equations? splitEvery_loop {A : Type} (n : Z) (Hn : 0 < n)
    (list : Datatypes.list A) (idx : Z)
    (result : Datatypes.list (Datatypes.list A))
    : Datatypes.list (Datatypes.list A)
    by wf (Z.to_nat (JS.len list - idx)) lt :=
  splitEvery_loop n Hn list idx result with Z_lt_dec idx (JS.len list) => {
    | left _ =>
        splitEvery_loop n Hn list (idx + n)
          (result ++ [JS.slice idx (idx + n) list]);
    | right _ => result }.
Proof. lia. Qed.

Definition splitEvery {A : Type} (n : Z) (list : Datatypes.list A)
  : JS.completion (Datatypes.list (Datatypes.list A)) :=
  match Z_lt_dec 0 n with
  | right _ =>
      JS.Throws
        (JS.Error "First argument to splitEvery must be a positive integer")
  | left Hn => JS.Returns (splitEvery_loop n Hn list 0 [])
  end.

(** * The page around the framing core *)

(** ** More of JavaScript *)

Module Page.

(** [obj[key] = value] on a plain object whose values are strings. The
    key [__proto__] is the accessor every object inherits: its setter
    ignores a string, so nothing is stored. Any other key gets an own
    property. *)
Definition assign (key value : string) (obj : gmap string string)
  : gmap string string :=
  if String.eqb key "__proto__" then obj else <[key := value]> obj.

(** [array.join(sep)] on strings. *)
Definition join (sep : string) (pieces : list string) : string :=
  String.concat sep pieces.

(** [s.slice(1)]. *)
Definition slice1 (s : string) : string :=
  match s with
  | EmptyString => EmptyString
  | String _ rest => rest
  end.

(** The digit characters [0-9a-f] of [toString(16)]. *)
Definition hex_char (d : Z) : ascii :=
  ascii_of_N (Z.to_N (if d <? 10 then 48 + d else 87 + d)).

(** The hexadecimal digits of a non-negative integer, most significant
    first. *)
Equations? hex_digits (n : Z) : string by wf (Z.to_nat n) lt :=
  hex_digits n with Z_lt_dec n 16 => {
    | left _ => String (hex_char n) EmptyString;
    | right _ =>
        String.append (hex_digits (n / 16))
                      (String (hex_char (n mod 16)) EmptyString) }.
Proof.
  apply Z2Nat.inj_lt; [apply Z.div_pos; lia | lia | apply Z.div_lt; lia].
Qed.

(** [n.toString(16)] for an integer [n]. *)
Definition toString16 (n : Z) : string :=
  if n <? 0 then String "-" (hex_digits (- n)) else hex_digits n.

(** [s.toUpperCase()], exact on strings of ASCII characters, which is
    what the page applies it to (hexadecimal digits). *)
Definition upper_char (c : ascii) : ascii :=
  let n := N_of_ascii c in
  if ((97 <=? n) && (n <=? 122))%N then ascii_of_N (n - 32) else c.

Fixpoint toUpperCase (s : string) : string :=
  match s with
  | EmptyString => EmptyString
  | String c rest => String (upper_char c) (toUpperCase rest)
  end.

End Page.

(** ** illuminateClimb and writeCharacteristicSeries (lines 109-149) *)

(** Lines 122-125: the buffer cut into messages of at most
    [MAX_BLUETOOTH_MESSAGE_SIZE] bytes, each copied into a [Uint8Array]. *)
Definition splitMessages (buffer : list Z) : JS.completion (list (list Z)) :=
  JS.bind (splitEvery MAX_BLUETOOTH_MESSAGE_SIZE buffer)
          (fun chunks => JS.Returns (map JS.Uint8Array_from chunks)).

(** Lines 143-149. The characteristic is whatever the browser hands out:
    [writeValue] takes the state of the link and a message, and gives the
    new state together with the value the promise resolves with, or the
    error it rejects with. Each write is awaited before the next one; a
    rejected write ends the series. [None] is the initial [null]. *)
Section WriteSeries.

Context {Link Value : Type}.
Variable writeValue : Link -> list Z -> Link * JS.completion Value.

Fixpoint writeCharacteristicSeries_from (link : Link)
    (returnValue : option Value) (messages : list (list Z))
  : Link * JS.completion (option Value) :=
  match messages with
  | [] => (link, JS.Returns returnValue)
  | message :: rest =>
      match writeValue link message with
      | (link', JS.Returns v) =>
          writeCharacteristicSeries_from link' (Some v) rest
      | (link', JS.Throws e) => (link', JS.Throws e)
      end
  end.

Definition writeCharacteristicSeries (link : Link) (messages : list (list Z))
  : Link * JS.completion (option Value) :=
  writeCharacteristicSeries_from link None messages.

End WriteSeries.

(** ** requestDevice (lines 151-163) *)

(** [bluetoothDevice] is the global cache; [chooser] is what
    [navigator.bluetooth.requestDevice] answers for the name prefix when
    it is asked. The calls are taken one after the other. The result is
    the new cache and what the call completes with. *)
Definition requestDevice {Device : Type} (chooser : string -> JS.completion Device)
    (bluetoothDevice : option Device) (namePrefix : string)
  : option Device * JS.completion Device :=
  match bluetoothDevice with
  | Some device => (Some device, JS.Returns device)
  | None =>
      match chooser namePrefix with
      | JS.Returns device => (Some device, JS.Returns device)
      | JS.Throws e => (None, JS.Throws e)
      end
  end.

(** ** The hold map and its event handlers (lines 172-240) *)

(** [state] maps a hold id to its colour, [strokes] is the [stroke]
    attribute of the circle drawn for each hold, [isDrawing] the drag
    flag. *)
Record page : Type := PageState {
  state : gmap string string;
  strokes : gmap string string;
  isDrawing : bool
}.

(** Line 176. *)
Definition mouseup (pg : page) : page :=
  PageState (state pg) (strokes pg) false.

(** Lines 207-222: a click on the circle of hold [id], with the colour of
    the picker as [selectedColor]. *)
Definition mousedown (id selectedColor : string) (pg : page) : page :=
  let currentColor := state pg !! id in
  if bool_decide (currentColor = Some selectedColor) then
    PageState (delete id (state pg))
              (<[id := "transparent"%string]> (strokes pg)) true
  else
    PageState (Page.assign id selectedColor (state pg))
              (<[id := String "#" selectedColor]> (strokes pg)) true.

(** Lines 224-230. *)
Definition mouseenter (id selectedColor : string) (pg : page) : page :=
  if isDrawing pg then
    PageState (Page.assign id selectedColor (state pg))
              (<[id := String "#" selectedColor]> (strokes pg)) (isDrawing pg)
  else pg.

(** Lines 236-240. *)
Definition clearAll (pg : page) : page :=
  PageState ∅ ((fun _ => "transparent"%string) <$> strokes pg) (isDrawing pg).

(** ** Lighting up (lines 242-264) *)

(** Lines 246-249, over the entries of [state] in the order
    [Object.entries] lists them. *)
Definition buildFrames (entries : list (string * string)) : string :=
  fold_left (fun frames '(id, color) =>
               String.append frames
                 (String "p" (String.append id (String "r" color))))
            entries EmptyString.

Inductive lightUpOutcome : Type :=
| Alert : string -> lightUpOutcome
| Illuminate : string -> list Z -> lightUpOutcome.

(** Lines 242-264: [KILTER_POSITIONS] comes from the data file and is a
    parameter here. *)
Definition lightUp (KILTER_POSITIONS : gmap string Z)
    (entries : list (string * string)) : JS.completion lightUpOutcome :=
  let frames := buildFrames entries in
  if String.eqb frames "" then JS.Returns (Alert "Select some holds first!")
  else
    JS.bind (getBluetoothPacket frames KILTER_POSITIONS ∅)
            (fun bluetoothPacket =>
               JS.Returns (Illuminate "Kilter" bluetoothPacket)).

(** ** Sampling an image (lines 290-342) *)

(** Line 327: the colour of a pixel as six hexadecimal digits. *)
Definition pixelToHex (r g b : Z) : string :=
  Page.toUpperCase
    (Page.slice1
       (Page.toString16
          (JS.shl (JS.of_int 1) 24 + JS.shl (JS.of_int r) 16
           + JS.shl (JS.of_int g) 8 + b))).

Record pixel : Type := Pixel { red : Z; green : Z; blue : Z; alpha : Z }.

(** Lines 323-325. The quotient by 3 is rounded, but rounding keeps the
    order and 30 is a floating-point number that no quotient of integers
    above 90 rounds down to, so the comparison is the one of the exact
    quotient. *)
Definition lit (px : pixel) : bool :=
  let brightness := (inject_Z (red px + green px + blue px) / inject_Z 3)%Q in
  (128 <? alpha px) && negb (Qle_bool brightness (inject_Z 30)).

(** Lines 301-330. [samples] lists the holds in the order of
    [holdPositions], each with the pixel read at its position, or [None]
    when the position falls outside the canvas ([continue]). The previous
    state is dropped. The result is the new [state]; the redrawing of the
    circles that follows (lines 332-341) is left out. *)
Definition processImage (samples : list (string * option pixel))
  : gmap string string :=
  fold_left (fun state '(id, sample) =>
               match sample with
               | None => state
               | Some px =>
                   if lit px then
                     Page.assign id (pixelToHex (red px) (green px) (blue px))
                                 state
                   else state
               end)
            samples ∅.

(** ** Sharing through the address (lines 346-382) *)

(** Lines 350-352. *)
Definition serialize (entries : list (string * string)) : string :=
  Page.join ","
    (map (fun '(id, color) => String.append id (String ":" color)) entries).

(** Lines 355-359: the value of the [boulder] parameter after the click,
    [None] when the parameter is deleted. *)
Definition shareParam (entries : list (string * string)) : option string :=
  let serialized := serialize entries in
  if 0 <? Z.of_nat (String.length serialized) then Some serialized else None.

(** Lines 375-380: one [id:color] pair of the parameter. *)
Definition loadPair (state : gmap string string) (pair : string)
  : gmap string string :=
  let parts := JS.split ":" pair in
  let id := default EmptyString (parts !! 0%nat) in
  let color : option string := parts !! 1%nat in
  match color with
  | Some color =>
      if (0 <? Z.of_nat (String.length id))
         && (0 <? Z.of_nat (String.length color))
      then Page.assign id color state
      else state
  | None => state
  end.

(** Lines 368-382: [boulderData] is what [params.get('boulder')] gives,
    [None] for [null]. *)
Definition loadFromUrl (boulderData : option string)
    (state : gmap string string) : gmap string string :=
  match boulderData with
  | Some data =>
      if 0 <? Z.of_nat (String.length data) then
        fold_left loadPair (JS.split "," data) ∅
      else state
  | None => state
  end.

(** * Notions the properties are stated with *)

(** The plain sum of a byte sequence. *)
Definition sum_bytes (d : list Z) : Z := fold_right Z.add 0 d.

(** Reading two bytes as a little-endian 16-bit value. *)
Definition decodePosition (low high : Z) : Z := low + 256 * high.

(** A frame as the wire format lays it out. *)
Definition frame_of (body : list Z) : list Z :=
  [1; JS.len body; checksum body; 2] ++ body ++ [3].

(** The value of a two-digit hexadecimal component. *)
Definition hex_byte (c1 c2 : ascii) : option Z :=
  match JS.hex_digit_value c1, JS.hex_digit_value c2 with
  | Some d1, Some d2 => Some (16 * d1 + d2)
  | _, _ => None
  end.

(** A colour component as [encodeColor] quantizes it: the two characters
    parsed, divided by [d], converted by the bitwise operator. *)
Definition component (s : string) (d : Z) : Z :=
  JS.ToInt32 (JS.div (JS.parseInt16 s) d).

(** Every 8-bit character, for checks by enumeration. *)
Definition all_ascii : list ascii := map ascii_of_nat (seq 0 256).

Definition for_all_short (P : string -> bool) : bool :=
  P EmptyString
  && forallb (fun c1 => P (String c1 EmptyString)) all_ascii
  && forallb (fun c1 =>
       forallb (fun c2 => P (String c1 (String c2 EmptyString))) all_ascii)
       all_ascii.

Definition component_in_range (s : string) : bool :=
  (0 <=? component s 32) && (component s 32 <=? 7)
  && (0 <=? component s 64) && (component s 64 <=? 3).

Definition hex_component_ok (s : string) : bool :=
  match s with
  | String c1 (String c2 EmptyString) =>
      match hex_byte c1 c2 with
      | Some v =>
          (0 <=? v) && (v <=? 255)
          && (component s 32 =? Z.quot v 32) && (component s 64 =? Z.quot v 64)
      | None => true
      end
  | _ => true
  end.

(** No character of the string is a hexadecimal digit. *)
Definition no_hex_digit (s : string) : bool :=
  forallb (fun c => negb (bool_decide (is_Some (JS.hex_digit_value c))))
          (list_ascii_of_string s).

Definition non_hex_component_ok (s : string) : bool :=
  negb (no_hex_digit s)
  || ((component s 32 =? 0) && (component s 64 =? 0)).

(** The encoded triples of the non-empty frames, in order: the sequence
    of pairs the splitter receives. It throws when a frame does. *)
Fixpoint encodedFrames (placementPositions : gmap string Z)
    (colors : gmap string string) (frames : list string)
  : JS.completion (list (list Z)) :=
  match frames with
  | [] => JS.Returns []
  | frame :: rest =>
      if 0 <? Z.of_nat (String.length frame) then
        JS.bind (encodeFrame placementPositions colors frame) (fun e =>
        JS.bind (encodedFrames placementPositions colors rest) (fun es =>
        JS.Returns (e :: es)))
      else encodedFrames placementPositions colors rest
  end.

(** The splitter after the triples [encs], and the packets it then holds
    once the last buffer is pushed (line 80), before the markers are set. *)
Definition splitterAfter (encs : list (list Z)) : splitter :=
  fold_left pushFrame encs initialSplitter.

Definition rawPackets (encs : list (list Z)) : list (list Z) :=
  resultArray (splitterAfter encs) ++ [tempArray (splitterAfter encs)].

(** The marker byte of the [i]-th packet. *)
Definition markerAt (packets : list (list Z)) (i : nat) : option Z :=
  match packets !! i with
  | Some packet => packet !! 0%nat
  | None => None
  end.

Definition is_byte (b : Z) : Prop := 0 <= b <= 255.

(** The open buffer: a marker and at most 84 triples. *)
Definition buffer_ok (t : list Z) : Prop :=
  exists k : nat,
    length t = (1 + 3 * k)%nat /\ (k <= 84)%nat
    /\ t !! 0%nat = Some PACKET_MIDDLE /\ Forall is_byte t.

(** A closed packet: a marker and exactly 84 triples. *)
Definition closed_ok (p : list Z) : Prop :=
  length p = 253%nat /\ p !! 0%nat = Some PACKET_MIDDLE /\ Forall is_byte p.

Definition splitter_ok (st : splitter) : Prop :=
  buffer_ok (tempArray st) /\ Forall closed_ok (resultArray st).

(** A logical packet that the frame wrapper accepts. *)
Definition packet_ok (p : list Z) : Prop :=
  (exists k : nat, length p = (1 + 3 * k)%nat)
  /\ (length p <= 253)%nat
  /\ JS.len p <= MESSAGE_BODY_MAX_LENGTH
  /\ wrapBytes p = frame_of p
  /\ wrapBytes p <> [].

(** The character [sep] does not occur in the string. *)
Fixpoint no_char (sep : ascii) (s : string) : bool :=
  match s with
  | EmptyString => true
  | String c rest => negb (Ascii.eqb c sep) && no_char sep rest
  end.

(** [n] copies of a frame description, as the page builds them
    ([frames += "p" + id + "r" + color]). *)
Fixpoint repeatFrames (n : nat) (frame : string) : string :=
  match n with
  | O => EmptyString
  | S n' => String.append frame (repeatFrames n' frame)
  end.

(** A link that accepts every write and keeps what it receives, in
    order. *)
Definition recordingWrite (received : list (list Z)) (message : list Z)
  : list (list Z) * JS.completion unit :=
  (received ++ [message], JS.Returns tt).

(** A series of calls of [requestDevice], one after the other, each with
    what the browser would answer if asked and with its name prefix: the
    final cache and what each call completes with. *)
Fixpoint requestDeviceCalls {Device : Type} (bluetoothDevice : option Device)
    (calls : list ((string -> JS.completion Device) * string))
  : option Device * list (JS.completion Device) :=
  match calls with
  | [] => (bluetoothDevice, [])
  | (chooser, namePrefix) :: rest =>
      let '(cache, outcome) :=
        requestDevice chooser bluetoothDevice namePrefix in
      let '(final, outcomes) := requestDeviceCalls cache rest in
      (final, outcome :: outcomes)
  end.

(** An entry of the hold map that the frame description can carry:
    neither the id nor the colour holds a [p] or an [r], and the colour
    names no inherited property. *)
Definition entry_ok (entry : string * string) : bool :=
  no_char "p" (fst entry) && no_char "r" (fst entry)
  && no_char "p" (snd entry) && no_char "r" (snd entry)
  && negb (JS.inherited (snd entry)).

(** The triple an entry stands for. *)
Definition encodeEntry (positions : gmap string Z) (entry : string * string)
  : list Z :=
  encodePositionAndColor (JS.Number (positions !! fst entry)) (snd entry).

(** The text of one entry after its [p], and of all entries. *)
Definition entryFrame (entry : string * string) : string :=
  String.append (fst entry) (String "r" (snd entry)).

Fixpoint framesText (entries : list (string * string)) : string :=
  match entries with
  | [] => EmptyString
  | entry :: rest =>
      String "p" (String.append (entryFrame entry) (framesText rest))
  end.

(** An entry of the hold map that the address can carry: id and colour
    are not empty and hold neither a comma nor a colon. *)
Definition url_ok (entry : string * string) : bool :=
  (0 <? Z.of_nat (String.length (fst entry)))
  && (0 <? Z.of_nat (String.length (snd entry)))
  && no_char "," (fst entry) && no_char ":" (fst entry)
  && no_char "," (snd entry) && no_char ":" (snd entry).

(** The hold map that results from assigning the entries in order to an
    empty object. *)
Definition assignAll (entries : list (string * string)) : gmap string string :=
  fold_left (fun state entry => Page.assign (fst entry) (snd entry) state)
            entries ∅.

(** What the pointer and the buttons can do to the page. *)
Inductive event : Type :=
| MouseDown : string -> string -> event
| MouseEnter : string -> string -> event
| MouseUp : event
| ClearAll : event.

Definition handle (pg : page) (ev : event) : page :=
  match ev with
  | MouseDown id selectedColor => mousedown id selectedColor pg
  | MouseEnter id selectedColor => mouseenter id selectedColor pg
  | MouseUp => mouseup pg
  | ClearAll => clearAll pg
  end.

(** The hold an event is about, if any. *)
Definition event_hold (ev : event) : option string :=
  match ev with
  | MouseDown id _ | MouseEnter id _ => Some id
  | MouseUp | ClearAll => None
  end.

(** The stroke that shows a hold: its colour after [#], or
    [transparent] when the hold is not in the map. *)
Definition stroke_of (color : option string) : string :=
  match color with
  | Some c => String "#" c
  | None => "transparent"
  end.

(** Every circle shows what the map holds for it. *)
Definition in_sync (pg : page) : Prop :=
  forall id stroke,
    strokes pg !! id = Some stroke -> stroke = stroke_of (state pg !! id).

(** A frame that cannot be given a colour when there is no colour
    table: it is not empty and either holds no [r], so that it has no
    role, or its role names an inherited property. *)
Definition frame_without_colour (frame : string) : bool :=
  (0 <? Z.of_nat (String.length frame))
  && match JS.split "r" frame !! 1%nat with
     | None => true
     | Some role => JS.inherited role
     end.

(** * Sanity checks of the embedding on concrete inputs *)

Example checksum_84 : checksum [84] = 171.
Proof. reflexivity. Qed.

Example wrapBytes_84 : wrapBytes [84] = [1; 1; 171; 2; 84; 3].
Proof. reflexivity. Qed.

Example encodePosition_1024 : encodePosition (JS.of_int 1024) = [0; 4].
Proof. reflexivity. Qed.

Example encodeColor_FF0000 : encodeColor "FF0000" = 224.
Proof. reflexivity. Qed.

Example split_ex : JS.split "p" "p1rAApp2rBB" = ["";"1rAA";"";"2rBB"]%string.
Proof. reflexivity. Qed.

Example parseInt_ex :
  JS.parseInt16 "zz" = JS.NaN /\ JS.parseInt16 "1z" = JS.of_int 1
  /\ JS.parseInt16 "0x" = JS.NaN /\ JS.parseInt16 "-f" = JS.of_int (-15).
Proof. repeat split. Qed.

Example getBluetoothPacket_ex :
  getBluetoothPacket "p5r00FF00" {[ "5"%string := 1024 ]} ∅
  = JS.Returns [1; 4; 139; 2; 84; 0; 4; 28; 3].
Proof. vm_compute. reflexivity. Qed.

Example getBluetoothPacket_no_role :
  getBluetoothPacket "p5" {[ "5"%string := 1024 ]} ∅ = JS.Throws JS.TypeError.
Proof. vm_compute. reflexivity. Qed.

Example getBluetoothPacket_inherited_role :
  getBluetoothPacket "p5rvalueOf" {[ "5"%string := 1024 ]} ∅
  = JS.Throws JS.TypeError.
Proof. vm_compute. reflexivity. Qed.

Example getBluetoothPacket_named_role :
  getBluetoothPacket "p5rstart" {[ "5"%string := 1024 ]}
    {[ "sta"%string := "00FF00"%string ]}
  = JS.Returns [1; 4; 139; 2; 84; 0; 4; 28; 3].
Proof. vm_compute. reflexivity. Qed.

Example splitEvery_ex :
  splitEvery 2 [1;2;3;4;5] = JS.Returns [[1;2];[3;4];[5]].
Proof. reflexivity. Qed.

(** * Arithmetic of the 32-bit operators *)

Section Int32.

Lemma truncate_inject_Z (z : Z) : JS.truncate (inject_Z z) = z.
Proof. unfold JS.truncate. simpl. apply Z.quot_1_r. Qed.

Lemma ToInt32_of_int (z : Z) : JS.ToInt32 (JS.of_int z) = JS.wrap32 z.
Proof. unfold JS.of_int. simpl. now rewrite truncate_inject_Z. Qed.

Lemma wrap32_small (z : Z) : - 2 ^ 31 <= z < 2 ^ 31 -> JS.wrap32 z = z.
Proof.
  intros Hz. unfold JS.wrap32.
  rewrite Z.mod_small by lia. lia.
Qed.

Lemma wrap32_range (z : Z) : - 2 ^ 31 <= JS.wrap32 z < 2 ^ 31.
Proof.
  unfold JS.wrap32.
  pose proof (Z.mod_pos_bound (z + 2 ^ 31) (2 ^ 32) ltac:(lia)). lia.
Qed.

(** [wrap32] only adds a multiple of 2^32. *)
Lemma wrap32_eq (z : Z) : exists k, JS.wrap32 z = z + 2 ^ 32 * k.
Proof.
  exists (- ((z + 2 ^ 31) / 2 ^ 32)). unfold JS.wrap32.
  pose proof (Z.div_mod (z + 2 ^ 31) (2 ^ 32) ltac:(lia)). lia.
Qed.

Lemma wrap32_mod256 (z : Z) : JS.wrap32 z mod 256 = z mod 256.
Proof.
  destruct (wrap32_eq z) as [k ->].
  replace (z + 2 ^ 32 * k) with (z + (2 ^ 24 * k) * 256) by lia.
  apply Z.mod_add. lia.
Qed.

Lemma land_255 (z : Z) : Z.land z 255 = z mod 256.
Proof. change 255 with (Z.ones 8). now rewrite Z.land_ones by lia. Qed.

Lemma band_255 (x : JS.number) :
  JS.band x (JS.of_int 255) = JS.ToInt32 x mod 256.
Proof.
  unfold JS.band. rewrite ToInt32_of_int.
  rewrite wrap32_small by lia. apply land_255.
Qed.

Lemma band_int_255 (z : Z) : JS.band (JS.of_int z) (JS.of_int 255) = z mod 256.
Proof. now rewrite band_255, ToInt32_of_int, wrap32_mod256. Qed.

End Int32.


(** * Checksum *)

Section Checksum.

Lemma checksum_step_mod (i value : Z) :
  checksum_step i value = (i + value) mod 256.
Proof. apply band_int_255. Qed.

Lemma checksum_loop (data : list Z) : forall i,
  fold_left checksum_step data (i mod 256) = (i + sum_bytes data) mod 256.
Proof.
  induction data as [|x data IH]; intros i; simpl.
  - now rewrite Z.add_0_r.
  - rewrite checksum_step_mod, Z.add_mod_idemp_l by lia.
    rewrite IH. f_equal. lia.
Qed.

Lemma checksum_closed (data : list Z) :
  checksum data = 255 - sum_bytes data mod 256.
Proof.
  unfold checksum. cbv zeta.
  change 0 with (0 mod 256) at 1. rewrite checksum_loop, Z.add_0_l.
  pose proof (Z.mod_pos_bound (sum_bytes data) 256 ltac:(lia)) as Hs.
  set (s := sum_bytes data mod 256) in *.
  rewrite band_int_255. unfold JS.bnot.
  rewrite ToInt32_of_int, wrap32_small by lia.
  unfold Z.lnot. symmetry.
  apply (Z.mod_unique _ _ (-1)); lia.
Qed.

End Checksum.

(** C4. For every byte sequence [d], [checksum d] is the bitwise
    complement of [sum d mod 256] masked to 8 bits; adding it to the sum
    gives 255 modulo 256; the empty sequence has checksum 255; the result
    always lies in 0..255. *)
Theorem checksum_law (d : list Z) :
  checksum d = Z.land (Z.lnot (sum_bytes d mod 256)) 255
  /\ (sum_bytes d mod 256 + checksum d) mod 256 = 255
  /\ checksum [] = 255
  /\ 0 <= checksum d <= 255.
Proof.
  pose proof (Z.mod_pos_bound (sum_bytes d) 256 ltac:(lia)) as Hs.
  rewrite checksum_closed. repeat split; try lia.
  - rewrite land_255. unfold Z.lnot.
    apply (Z.mod_unique _ _ (-1)); lia.
  - replace (sum_bytes d mod 256 + (255 - sum_bytes d mod 256)) with 255 by lia.
    reflexivity.
Qed.

(** * Frame wrapper *)

Lemma wrapBytes_fits (body : list Z) :
  JS.len body <= MESSAGE_BODY_MAX_LENGTH -> wrapBytes body = frame_of body.
Proof.
  intros Hlen. unfold wrapBytes.
  destruct (Z.gtb_spec (JS.len body) MESSAGE_BODY_MAX_LENGTH); [lia | reflexivity].
Qed.

Lemma frame_of_last (body : list Z) :
  frame_of body !! (4 + length body)%nat = Some 3.
Proof.
  unfold frame_of. rewrite app_assoc.
  apply list_lookup_middle. rewrite length_app. simpl. lia.
Qed.

(** C3. For a body of at most 255 bytes, [wrapBytes body] is
    [[1, len(body), checksum(body), 2, ...body, 3]]: its length is
    [len(body) + 5], positions 0, 3 and [4 + len(body)] hold 1, 2 and 3,
    position 1 holds the length and position 2 the checksum. For a longer
    body, [wrapBytes] returns the empty sequence. *)
Theorem wrapBytes_contract (body : list Z) :
  (JS.len body <= 255 ->
     wrapBytes body = [1; JS.len body; checksum body; 2] ++ body ++ [3]
     /\ JS.len (wrapBytes body) = JS.len body + 5
     /\ wrapBytes body !! 0%nat = Some 1
     /\ wrapBytes body !! 1%nat = Some (JS.len body)
     /\ wrapBytes body !! 2%nat = Some (checksum body)
     /\ wrapBytes body !! 3%nat = Some 2
     /\ wrapBytes body !! (4 + length body)%nat = Some 3)
  /\ (255 < JS.len body -> wrapBytes body = []).
Proof.
  split.
  - intros Hlen. rewrite wrapBytes_fits by exact Hlen.
    repeat split; try reflexivity.
    + unfold frame_of, JS.len. cbn [app length].
      rewrite length_app. simpl. lia.
    + apply frame_of_last.
  - intros Hlen. unfold wrapBytes.
    destruct (Z.gtb_spec (JS.len body) MESSAGE_BODY_MAX_LENGTH) as [_|Hle];
      [reflexivity | unfold MESSAGE_BODY_MAX_LENGTH in Hle; lia].
Qed.

Lemma wrapBytes_contract_witness :
  wrapBytes [84] = [1; 1; 171; 2; 84; 3]
  /\ wrapBytes (replicate 256 0) = [].
Proof.
  split.
  - apply (proj1 (wrapBytes_contract [84])). vm_compute. discriminate.
  - apply (proj2 (wrapBytes_contract (replicate 256 0))). vm_compute. reflexivity.
Defined.

(** * Position codec *)

Section Position.

Lemma band_range (x : JS.number) : 0 <= JS.band x (JS.of_int 255) <= 255.
Proof.
  rewrite band_255.
  pose proof (Z.mod_pos_bound (JS.ToInt32 x) 256 ltac:(lia)). lia.
Qed.

(** The high byte as the source computes it: mask with 0xFF00, then shift. *)
Lemma high_byte (x : JS.number) :
  JS.sar (JS.of_int (JS.band x (JS.of_int 65280))) 8
  = (JS.ToInt32 x / 256) mod 256.
Proof.
  unfold JS.sar, JS.band. rewrite !ToInt32_of_int.
  rewrite (wrap32_small 65280) by lia.
  set (w := JS.ToInt32 x).
  assert (Hmask : Z.land w 65280 = Z.shiftl (Z.land (Z.shiftr w 8) 255) 8).
  { change 65280 with (Z.shiftl 255 8).
    apply Z.bits_inj'. intros i Hi.
    rewrite Z.land_spec, !Z.shiftl_spec by lia.
    destruct (Z.ltb_spec i 8) as [Hlt|Hge].
    - rewrite !(Z.testbit_neg_r _ (i - 8)) by lia. apply andb_false_r.
    - rewrite Z.land_spec, Z.shiftr_spec by lia.
      now replace (i - 8 + 8) with i by lia. }
  rewrite Hmask. clear Hmask.
  change (Z.land 8 31) with 8.
  rewrite land_255, (Z.shiftr_div_pow2 w) by lia.
  change (2 ^ 8) with 256.
  pose proof (Z.mod_pos_bound (w / 256) 256 ltac:(lia)) as Hb.
  rewrite Z.shiftl_mul_pow2 by lia. change (2 ^ 8) with 256.
  rewrite wrap32_small by lia.
  rewrite Z.shiftr_div_pow2 by lia. change (2 ^ 8) with 256.
  now rewrite Z.div_mul by lia.
Qed.

Lemma encodePosition_bytes (x : JS.number) :
  encodePosition x = [JS.ToInt32 x mod 256; (JS.ToInt32 x / 256) mod 256].
Proof. unfold encodePosition. cbv zeta. now rewrite band_255, high_byte. Qed.

Lemma wrap32_div256_mod256 (z : Z) :
  (JS.wrap32 z / 256) mod 256 = (z / 256) mod 256.
Proof.
  destruct (wrap32_eq z) as [k ->].
  replace (z + 2 ^ 32 * k) with (z + (2 ^ 24 * k) * 256) by lia.
  rewrite Z.div_add by lia.
  replace (2 ^ 24 * k) with ((2 ^ 16 * k) * 256) by lia.
  apply Z.mod_add. lia.
Qed.

Lemma encodePosition_int (p : Z) :
  encodePosition (JS.of_int p) = [p mod 256; (p / 256) mod 256].
Proof.
  rewrite encodePosition_bytes, ToInt32_of_int.
  now rewrite wrap32_mod256, wrap32_div256_mod256.
Qed.

Lemma encodePosition_range (x : JS.number) :
  Forall (fun b => 0 <= b <= 255) (encodePosition x).
Proof.
  rewrite encodePosition_bytes.
  pose proof (Z.mod_pos_bound (JS.ToInt32 x) 256 ltac:(lia)).
  pose proof (Z.mod_pos_bound (JS.ToInt32 x / 256) 256 ltac:(lia)).
  repeat constructor; lia.
Qed.

End Position.

(** C5. For every integer position [p], [encodePosition p] is exactly the
    two bytes [[p & 0xFF, (p >> 8) & 0xFF]]; for [p] in 0..65535 reading
    them back as a little-endian 16-bit value gives [p]; a larger [p] is
    masked, that is, encoded as [p mod 65536], and never rejected. *)
Theorem encodePosition_roundtrip (p : Z) :
  encodePosition (JS.of_int p)
    = [Z.land p 255; Z.land (Z.shiftr p 8) 255]
  /\ (0 <= p <= 65535 ->
      exists low high,
        encodePosition (JS.of_int p) = [low; high]
        /\ decodePosition low high = p)
  /\ encodePosition (JS.of_int p) = encodePosition (JS.of_int (p mod 65536)).
Proof.
  rewrite !encodePosition_int. repeat split.
  - now rewrite !land_255, Z.shiftr_div_pow2 by lia.
  - intros Hp. exists (p mod 256), ((p / 256) mod 256). split; [reflexivity|].
    unfold decodePosition.
    rewrite (Z.mod_small (p / 256)) by (split; [apply Z.div_pos | apply Z.div_lt_upper_bound]; lia).
    pose proof (Z.div_mod p 256 ltac:(lia)). lia.
  - f_equal; [| f_equal].
    + change 65536 with (256 * 256).
      rewrite Z.rem_mul_r by lia.
      rewrite (Z.mul_comm 256), Z.mod_add by lia.
      now rewrite Z.mod_mod by lia.
    + change 65536 with (256 * 256).
      rewrite Z.rem_mul_r by lia.
      rewrite (Z.mul_comm 256), Z.div_add by lia.
      rewrite (Z.div_small (p mod 256)) by (apply Z.mod_pos_bound; lia).
      now rewrite Z.add_0_l, Z.mod_mod by lia.
Qed.

Lemma encodePosition_roundtrip_witness :
  exists low high,
    encodePosition (JS.of_int 1024) = [low; high]
    /\ decodePosition low high = 1024.
Proof.
  apply (proj1 (proj2 (encodePosition_roundtrip 1024))). lia.
Defined.


(** * Colour codec *)

Section Color.

Lemma in_all_ascii (c : ascii) : In c all_ascii.
Proof.
  unfold all_ascii. rewrite <- (ascii_nat_embedding c).
  apply in_map, in_seq. pose proof (nat_ascii_bounded c). lia.
Qed.

(** A property checked on every string of at most two characters holds
    of every such string. *)
Lemma for_all_short_spec (P : string -> bool) :
  for_all_short P = true ->
  forall s, (String.length s <= 2)%nat -> P s = true.
Proof.
  unfold for_all_short. intros H s Hs.
  apply andb_prop in H as [H H2]. apply andb_prop in H as [H0 H1].
  rewrite forallb_forall in H1, H2.
  destruct s as [|c1 [|c2 [|c3 s]]]; simpl in Hs; try lia.
  - exact H0.
  - apply H1, in_all_ascii.
  - specialize (H2 c1 (in_all_ascii c1)). rewrite forallb_forall in H2.
    apply H2, in_all_ascii.
Qed.

Lemma substring_short (a b : nat) (s : string) :
  (String.length (JS.substring a b s) <= b - a)%nat.
Proof.
  unfold JS.substring. generalize (b - a)%nat as m. clear b.
  revert a. induction s as [|c s IH]; intros a m.
  - destruct a, m; simpl; lia.
  - destruct a as [|a].
    + destruct m as [|m]; simpl; [lia|].
      specialize (IH 0%nat m). lia.
    + simpl. apply IH.
Qed.

Lemma component_range (s : string) :
  (String.length s <= 2)%nat ->
  0 <= component s 32 <= 7 /\ 0 <= component s 64 <= 3.
Proof.
  intros Hs.
  assert (Hall : for_all_short component_in_range = true)
    by (vm_compute; reflexivity).
  pose proof (for_all_short_spec _ Hall s Hs) as H.
  unfold component_in_range in H.
  repeat (apply andb_prop in H as [H ?]). lia.
Qed.

Lemma component_hex (c1 c2 : ascii) (v : Z) :
  hex_byte c1 c2 = Some v ->
  0 <= v <= 255
  /\ component (String c1 (String c2 EmptyString)) 32 = Z.quot v 32
  /\ component (String c1 (String c2 EmptyString)) 64 = Z.quot v 64.
Proof.
  intros Hv.
  assert (Hall : for_all_short hex_component_ok = true)
    by (vm_compute; reflexivity).
  pose proof (for_all_short_spec _ Hall (String c1 (String c2 EmptyString))
                ltac:(simpl; lia)) as H.
  unfold hex_component_ok in H. rewrite Hv in H.
  repeat (apply andb_prop in H as [H ?]). lia.
Qed.

Lemma pack_small (r g : Z) :
  0 <= r <= 7 -> 0 <= g <= 7 ->
  JS.wrap32 (Z.lor (JS.wrap32 (JS.wrap32 (Z.shiftl r 5)))
                   (JS.wrap32 (JS.wrap32 (Z.shiftl g 2))))
  = Z.lor (Z.shiftl r 5) (Z.shiftl g 2)
  /\ 0 <= Z.lor (Z.shiftl r 5) (Z.shiftl g 2) <= 252.
Proof.
  intros Hr Hg.
  assert (r = 0 \/ r = 1 \/ r = 2 \/ r = 3 \/ r = 4 \/ r = 5 \/ r = 6 \/ r = 7)
    as Er by lia.
  assert (g = 0 \/ g = 1 \/ g = 2 \/ g = 3 \/ g = 4 \/ g = 5 \/ g = 6 \/ g = 7)
    as Eg by lia.
  clear Hr Hg.
  repeat (destruct Er as [Er|Er]); repeat (destruct Eg as [Eg|Eg]);
    subst r g; vm_compute; intuition discriminate.
Qed.

(** The colour byte in closed form, for any string whatever. *)
Lemma encodeColor_formula (color : string) :
  encodeColor color
  = Z.lor (Z.lor (Z.shiftl (component (JS.substring 0 2 color) 32) 5)
                 (Z.shiftl (component (JS.substring 2 4 color) 32) 2))
          (component (JS.substring 4 6 color) 64).
Proof.
  unfold encodeColor. cbv zeta. unfold JS.bor, JS.shl.
  rewrite !ToInt32_of_int. change (Z.land 5 31) with 5. change (Z.land 2 31) with 2.
  fold (component (JS.substring 0 2 color) 32).
  fold (component (JS.substring 2 4 color) 32).
  fold (component (JS.substring 4 6 color) 64).
  destruct (component_range (JS.substring 0 2 color) (substring_short 0 2 color))
    as [Hr _].
  destruct (component_range (JS.substring 2 4 color) (substring_short 2 4 color))
    as [Hg _].
  now rewrite (proj1 (pack_small _ _ Hr Hg)).
Qed.

Lemma encodeColor_range (color : string) : 0 <= encodeColor color <= 255.
Proof.
  rewrite encodeColor_formula.
  destruct (component_range (JS.substring 0 2 color) (substring_short 0 2 color))
    as [Hr _].
  destruct (component_range (JS.substring 2 4 color) (substring_short 2 4 color))
    as [Hg _].
  destruct (component_range (JS.substring 4 6 color) (substring_short 4 6 color))
    as [_ Hb].
  destruct (pack_small _ _ Hr Hg) as [_ Hrg].
  set (rg := Z.lor _ _) in *. set (b := component _ 64) in *.
  assert (Hlo : 0 <= Z.lor rg b) by (apply Z.lor_nonneg; lia).
  assert (Hhi : Z.lor rg b < 2 ^ 8); [| lia].
  destruct (Z.eq_dec (Z.lor rg b) 0) as [->|Hnz]; [lia|].
  apply Z.log2_lt_pow2; [lia|].
  rewrite Z.log2_lor by lia.
  assert (Z.log2 rg < 8).
  { destruct (Z.eq_dec rg 0) as [->|]; [simpl; lia|].
    apply Z.log2_lt_pow2; lia. }
  assert (Z.log2 b < 8).
  { destruct (Z.eq_dec b 0) as [->|]; [simpl; lia|].
    apply Z.log2_lt_pow2; lia. }
  lia.
Qed.

End Color.

(** C6. For a well-formed colour string RRGGBB of six hexadecimal digits,
    [encodeColor] returns the byte
    [(R div 32) << 5 | (G div 32) << 2 | (B div 64)], where R, G and B are
    the decoded components and the division truncates. In particular
    [encodeColor "FF0000" = 224], and position 1024 with colour ["00FF00"]
    encodes to the triple [[0, 4, 28]]. *)
Theorem encodeColor_quantizes (r1 r2 g1 g2 b1 b2 : ascii) (R G B : Z) :
  (hex_byte r1 r2 = Some R ->
   hex_byte g1 g2 = Some G ->
   hex_byte b1 b2 = Some B ->
   encodeColor
     (String r1 (String r2 (String g1 (String g2 (String b1 (String b2
        EmptyString))))))
   = Z.lor (Z.lor (Z.shiftl (Z.quot R 32) 5) (Z.shiftl (Z.quot G 32) 2))
           (Z.quot B 64))
  /\ encodeColor "FF0000" = 224
  /\ encodePositionAndColor (JS.of_int 1024) "00FF00" = [0; 4; 28].
Proof.
  split; [| split; reflexivity].
  intros HR HG HB. rewrite encodeColor_formula.
  change (JS.substring 0 2 _) with (String r1 (String r2 EmptyString)).
  change (JS.substring 2 4 _) with (String g1 (String g2 EmptyString)).
  change (JS.substring 4 6 _) with (String b1 (String b2 EmptyString)).
  destruct (component_hex _ _ _ HR) as (_ & -> & _).
  destruct (component_hex _ _ _ HG) as (_ & -> & _).
  destruct (component_hex _ _ _ HB) as (_ & _ & ->).
  reflexivity.
Qed.

Lemma encodeColor_quantizes_witness :
  encodeColor "3c9Af0"
  = Z.lor (Z.lor (Z.shiftl (Z.quot 60 32) 5) (Z.shiftl (Z.quot 154 32) 2))
          (Z.quot 240 64).
Proof.
  apply (proj1 (encodeColor_quantizes "3" "c" "9" "A" "f" "0" 60 154 240));
    reflexivity.
Defined.


(** * Packet splitter *)

Section Splitter.

Variable placementPositions : gmap string Z.
Variable colors : gmap string string.

Lemma encodePositionAndColor_triple (position : JS.number) (color : string) :
  length (encodePositionAndColor position color) = 3%nat
  /\ Forall is_byte (encodePositionAndColor position color).
Proof.
  unfold encodePositionAndColor. split.
  - now rewrite encodePosition_bytes.
  - apply Forall_app. split; [apply encodePosition_range|].
    constructor; [apply encodeColor_range | constructor].
Qed.

Lemma encodeFrame_triple (frame : string) (e : list Z) :
  encodeFrame placementPositions colors frame = JS.Returns e ->
  length e = 3%nat /\ Forall is_byte e.
Proof.
  unfold encodeFrame. cbv zeta.
  destruct (match colors !! _ with Some _ => _ | None => _ end);
    [| discriminate].
  intros [= <-]. apply encodePositionAndColor_triple.
Qed.

Lemma encodedFrames_triples (frames : list string) : forall encs,
  encodedFrames placementPositions colors frames = JS.Returns encs ->
  Forall (fun e => length e = 3%nat /\ Forall is_byte e) encs.
Proof.
  induction frames as [|frame rest IH]; intros encs; simpl.
  - intros [= <-]. constructor.
  - destruct (0 <? Z.of_nat (String.length frame)); [| apply IH].
    destruct (encodeFrame placementPositions colors frame) as [e|] eqn:He;
      simpl; [| discriminate].
    destruct (encodedFrames placementPositions colors rest) as [es|];
      simpl; [| discriminate].
    intros [= <-]. constructor; [eapply encodeFrame_triple, He | now apply IH].
Qed.

(** The [forEach] loop is the pure fold over the encoded frames. *)
Lemma forEach_run (frames : list string) : forall st,
  JS.foldM (forEachFrame placementPositions colors) frames st
  = JS.bind (encodedFrames placementPositions colors frames)
            (fun encs => JS.Returns (fold_left pushFrame encs st)).
Proof.
  induction frames as [|frame rest IH]; intros st; simpl; [reflexivity|].
  unfold forEachFrame at 1.
  destruct (0 <? Z.of_nat (String.length frame)); simpl; [| apply IH].
  destruct (encodeFrame placementPositions colors frame) as [e|]; simpl;
    [| reflexivity].
  rewrite IH.
  now destruct (encodedFrames placementPositions colors rest).
Qed.

Lemma logicalPackets_run (frames : string) (encs : list (list Z)) :
  encodedFrames placementPositions colors (JS.split "p" frames)
    = JS.Returns encs ->
  logicalPackets frames placementPositions colors
    = JS.Returns (assignMarkers (rawPackets encs)).
Proof.
  intros Hencs. unfold logicalPackets. now rewrite forEach_run, Hencs.
Qed.

(** A frame that throws makes the whole call throw: no packet results. *)
Lemma getBluetoothPacket_throws (frames : string) (e : JS.exn) :
  encodedFrames placementPositions colors (JS.split "p" frames)
    = JS.Throws e ->
  logicalPackets frames placementPositions colors = JS.Throws e
  /\ getBluetoothPacket frames placementPositions colors = JS.Throws e.
Proof.
  intros Hencs. unfold getBluetoothPacket, logicalPackets.
  now rewrite forEach_run, Hencs.
Qed.

(** The pairs are the non-empty frames, one triple each. *)
Lemma encodedFrames_length (frames : list string) : forall encs,
  encodedFrames placementPositions colors frames = JS.Returns encs ->
  length encs
  = length (List.filter (fun frame => 0 <? Z.of_nat (String.length frame))
                        frames).
Proof.
  induction frames as [|frame rest IH]; intros encs; simpl.
  - now intros [= <-].
  - destruct (0 <? Z.of_nat (String.length frame)); [| apply IH].
    destruct (encodeFrame placementPositions colors frame) as [e|];
      simpl; [| discriminate].
    destruct (encodedFrames placementPositions colors rest) as [es|];
      simpl; [| discriminate].
    intros [= <-]. simpl. f_equal. now apply IH.
Qed.

End Splitter.

Section SplitterInvariant.

Implicit Types (st : splitter) (e : list Z) (encs : list (list Z)).

Lemma initialSplitter_ok : splitter_ok initialSplitter.
Proof.
  split; [| constructor].
  exists 0%nat. repeat split; try (simpl; lia).
  repeat constructor; unfold PACKET_MIDDLE; lia.
Qed.

(** In a reachable state the buffer is closed exactly when it holds 84
    triples. *)
Lemma close_iff_full st :
  splitter_ok st ->
  (JS.len (tempArray st) + 3 > MESSAGE_BODY_MAX_LENGTH
   <-> length (tempArray st) = 253%nat).
Proof.
  intros [(k & Hlen & Hk & _) _].
  unfold JS.len, MESSAGE_BODY_MAX_LENGTH. lia.
Qed.

Lemma pushFrame_ok st e :
  length e = 3%nat -> Forall is_byte e ->
  splitter_ok st -> splitter_ok (pushFrame st e).
Proof.
  intros He Hbytes Hst.
  pose proof (close_iff_full st Hst) as Hfull.
  destruct Hst as [(k & Hlen & Hk & Hhead & Htemp) Hclosed].
  unfold pushFrame.
  destruct (Z.gtb_spec (JS.len (tempArray st) + 3) MESSAGE_BODY_MAX_LENGTH)
    as [Hgt|Hle]; unfold splitter_ok; cbn [resultArray tempArray].
  - split.
    + exists 1%nat. repeat split; try (simpl; lia).
      constructor; [unfold is_byte, PACKET_MIDDLE; lia | exact Hbytes].
    + apply Forall_app. split; [exact Hclosed|].
      constructor; [| constructor].
      repeat split; [apply Hfull; lia | exact Hhead | exact Htemp].
  - split; [| exact Hclosed].
    exists (S k). repeat split.
    + rewrite length_app. lia.
    + unfold JS.len, MESSAGE_BODY_MAX_LENGTH in Hle. lia.
    + apply lookup_app_l_Some, Hhead.
    + apply Forall_app. now split.
Qed.

Lemma fold_pushFrame_ok encs : forall st,
  Forall (fun e => length e = 3%nat /\ Forall is_byte e) encs ->
  splitter_ok st -> splitter_ok (fold_left pushFrame encs st).
Proof.
  induction encs as [|e encs IH]; intros st Hencs Hst; simpl; [exact Hst|].
  inversion Hencs as [|? ? [He Hb] Hrest]; subst.
  apply IH; [exact Hrest | now apply pushFrame_ok].
Qed.

(** Up to 84 triples never close the first buffer. *)
Lemma fold_pushFrame_few encs : forall st (k : nat),
  Forall (fun e => length e = 3%nat /\ Forall is_byte e) encs ->
  resultArray st = [] ->
  length (tempArray st) = (1 + 3 * k)%nat ->
  (k + length encs <= 84)%nat ->
  resultArray (fold_left pushFrame encs st) = [].
Proof.
  induction encs as [|e encs IH]; intros st k Hencs Hres Hlen Hk; simpl;
    [exact Hres|].
  inversion Hencs as [|? ? [He Hb] Hrest]; subst. simpl in Hk.
  apply (IH _ (S k)); try assumption; try lia; unfold pushFrame;
    destruct (Z.gtb_spec (JS.len (tempArray st) + 3) MESSAGE_BODY_MAX_LENGTH)
      as [Hgt|Hle];
    unfold JS.len, MESSAGE_BODY_MAX_LENGTH in *; cbn [resultArray tempArray];
    try lia; try assumption.
  rewrite length_app. lia.
Qed.

Lemma rawPackets_ok encs :
  Forall (fun e => length e = 3%nat /\ Forall is_byte e) encs ->
  Forall (fun p => (exists k : nat, length p = (1 + 3 * k)%nat /\ (k <= 84)%nat)
                   /\ p !! 0%nat = Some PACKET_MIDDLE /\ Forall is_byte p)
         (rawPackets encs).
Proof.
  intros Hencs. unfold rawPackets, splitterAfter.
  destruct (fold_pushFrame_ok encs _ Hencs initialSplitter_ok)
    as [(k & Hlen & Hk & Hhead & Hb) Hclosed].
  apply Forall_app. split.
  - eapply Forall_impl; [exact Hclosed|].
    intros p (Hp & Hh & Hbp). split; [exists 84%nat; lia | now split].
  - constructor; [| constructor]. split; [now exists k | now split].
Qed.

End SplitterInvariant.

Section Markers.

Lemma assignMarkers_one (p : list Z) :
  assignMarkers [p] = [setMarker PACKET_ONLY p].
Proof. reflexivity. Qed.

Lemma assignMarkers_many (p q : list Z) (mid : list (list Z)) :
  assignMarkers (p :: mid ++ [q])
  = setMarker PACKET_FIRST p :: mid ++ [setMarker PACKET_LAST q].
Proof.
  unfold assignMarkers.
  assert (Hlen : JS.len (p :: mid ++ [q]) = 2 + Z.of_nat (length mid)).
  { unfold JS.len. cbn [length]. rewrite length_app. simpl. lia. }
  rewrite Hlen.
  destruct (Z.eqb_spec (2 + Z.of_nat (length mid)) 1) as [|_]; [lia|].
  destruct (Z.gtb_spec (2 + Z.of_nat (length mid)) 1) as [_|]; [| lia].
  cbn [alter list_alter length Nat.sub].
  rewrite length_app. cbn [length].
  replace (length mid + 1 - 0)%nat with (S (length mid)) by lia.
  cbn [alter list_alter]. f_equal.
  replace (length mid) with (length mid + 0)%nat at 1 by lia.
  now rewrite alter_app_r.
Qed.

Lemma setMarker_head (m : Z) (p : list Z) : setMarker m p !! 0%nat = Some m.
Proof. now destruct p. Qed.

Lemma setMarker_length (m : Z) (p : list Z) :
  p <> [] -> length (setMarker m p) = length p.
Proof. now destruct p. Qed.

Lemma setMarker_bytes (m : Z) (p : list Z) :
  is_byte m -> Forall is_byte p -> Forall is_byte (setMarker m p).
Proof.
  intros Hm Hp. destruct p; simpl; constructor; auto.
  now inversion Hp.
Qed.

End Markers.

Section LogicalPackets.

Implicit Types (encs : list (list Z)) (p : list Z).

(** What the marker assignment yields: one packet marked ONLY, or a
    first packet, the closed packets in between, and a last packet. *)
Lemma assignMarkers_rawPackets encs :
  (resultArray (splitterAfter encs) = []
   /\ assignMarkers (rawPackets encs)
      = [setMarker PACKET_ONLY (tempArray (splitterAfter encs))])
  \/ (exists p mid,
        resultArray (splitterAfter encs) = p :: mid
        /\ assignMarkers (rawPackets encs)
           = setMarker PACKET_FIRST p
               :: mid ++ [setMarker PACKET_LAST (tempArray (splitterAfter encs))]).
Proof.
  unfold rawPackets.
  destruct (resultArray (splitterAfter encs)) as [|p mid].
  - left. split; reflexivity.
  - right. exists p, mid. split; [reflexivity|].
    apply assignMarkers_many.
Qed.

Lemma setMarker_sized (m : Z) p :
  is_byte m ->
  (exists k : nat, length p = (1 + 3 * k)%nat /\ (k <= 84)%nat)
  /\ p !! 0%nat = Some PACKET_MIDDLE /\ Forall is_byte p ->
  (exists k : nat, length (setMarker m p) = (1 + 3 * k)%nat /\ (k <= 84)%nat)
  /\ Forall is_byte (setMarker m p).
Proof.
  intros Hm ((k & Hlen & Hk) & _ & Hb).
  split; [| now apply setMarker_bytes].
  exists k. rewrite setMarker_length; [now split|].
  intros ->. simpl in Hlen. lia.
Qed.

Lemma assignMarkers_sized encs :
  Forall (fun e => length e = 3%nat /\ Forall is_byte e) encs ->
  Forall (fun p => (exists k : nat, length p = (1 + 3 * k)%nat /\ (k <= 84)%nat)
                   /\ Forall is_byte p)
         (assignMarkers (rawPackets encs)).
Proof.
  intros Hencs. pose proof (rawPackets_ok encs Hencs) as Hraw.
  unfold rawPackets in Hraw. apply Forall_app in Hraw as [Hres Htemp].
  apply Forall_inv in Htemp.
  assert (Hb : forall m, 81 <= m <= 84 -> is_byte m) by (unfold is_byte; lia).
  destruct (assignMarkers_rawPackets encs) as [[Hnil ->] | (p & mid & Hcons & ->)].
  - constructor; [| constructor].
    apply setMarker_sized; [apply Hb; unfold PACKET_ONLY; lia | exact Htemp].
  - rewrite Hcons in Hres. inversion Hres as [|? ? Hp Hmid]; subst.
    constructor; [apply setMarker_sized;
                  [apply Hb; unfold PACKET_FIRST; lia | exact Hp] |].
    apply Forall_app. split.
    + eapply Forall_impl; [exact Hmid|]. now intros q (Hq & _ & Hbq).
    + constructor; [| constructor].
      apply setMarker_sized; [apply Hb; unfold PACKET_LAST; lia | exact Htemp].
Qed.

End LogicalPackets.

(** * From logical packets to the byte stream *)

Section Stream.

Lemma wrapPackets_concat (packets : list (list Z)) :
  wrapPackets packets = concat (map wrapBytes packets).
Proof.
  unfold wrapPackets.
  assert (H : forall acc,
             fold_left (fun finalResultArray currentArray =>
                          finalResultArray ++ wrapBytes currentArray)
                       packets acc
             = acc ++ concat (map wrapBytes packets)).
  { induction packets as [|p packets IH]; intros acc; simpl.
    - now rewrite app_nil_r.
    - now rewrite IH, app_assoc. }
  apply H.
Qed.

Lemma Uint8Array_from_bytes (l : list Z) :
  Forall is_byte l -> JS.Uint8Array_from l = l.
Proof.
  unfold JS.Uint8Array_from.
  induction 1 as [|b l Hb _ IH]; simpl; [reflexivity|].
  rewrite IH. f_equal. apply Z.mod_small. unfold is_byte in Hb. lia.
Qed.

Lemma frame_of_bytes (p : list Z) :
  JS.len p <= 255 -> Forall is_byte p -> Forall is_byte (frame_of p).
Proof.
  intros Hlen Hp. unfold frame_of.
  destruct (checksum_law p) as (_ & _ & _ & Hsum).
  unfold JS.len in *.
  repeat (apply Forall_cons; split; [unfold is_byte; lia|]).
  apply Forall_app. split; [exact Hp|].
  repeat constructor; unfold is_byte; lia.
Qed.

Lemma wrap_sized (packets : list (list Z)) :
  Forall (fun p => (exists k : nat, length p = (1 + 3 * k)%nat /\ (k <= 84)%nat)
                   /\ Forall is_byte p) packets ->
  Forall packet_ok packets
  /\ JS.Uint8Array_from (wrapPackets packets) = concat (map frame_of packets).
Proof.
  intros Hsized.
  assert (Hok : Forall (fun p => packet_ok p /\ Forall is_byte (frame_of p))
                       packets).
  { eapply Forall_impl; [exact Hsized|].
    intros p ((k & Hlen & Hk) & Hb).
    assert (Hfit : JS.len p <= MESSAGE_BODY_MAX_LENGTH)
      by (unfold JS.len, MESSAGE_BODY_MAX_LENGTH; lia).
    pose proof (wrapBytes_fits p Hfit) as Hwrap.
    split; [| apply frame_of_bytes; [exact Hfit | exact Hb]].
    repeat split; [now exists k | lia | exact Hfit | exact Hwrap |].
    rewrite Hwrap. discriminate. }
  split; [eapply Forall_impl; [exact Hok | now intros p [? _]] |].
  rewrite wrapPackets_concat.
  assert (Hmap : map wrapBytes packets = map frame_of packets).
  { apply Forall_fmap_ext_1. eapply Forall_impl; [exact Hok|].
    now intros p [(_ & _ & _ & ? & _) _]. }
  rewrite Hmap. apply Uint8Array_from_bytes, Forall_concat, Forall_fmap.
  eapply Forall_impl; [exact Hok | now intros p [_ ?]].
Qed.

End Stream.

(** C10. Every logical packet the splitter produces has length [1 + 3k]
    for some [k] and at most 253 bytes. Hence every packet handed to
    [wrapBytes] inside [getBluetoothPacket] has length at most 255, the
    empty-result branch of [wrapBytes] is never taken there, and the
    output is the concatenation of the well-formed frames of the
    packets. *)
Theorem packets_fit_frames (frames : string)
    (placementPositions : gmap string Z) (colors : gmap string string)
    (encs : list (list Z)) :
  encodedFrames placementPositions colors (JS.split "p" frames)
    = JS.Returns encs ->
  exists packets,
    logicalPackets frames placementPositions colors = JS.Returns packets
    /\ Forall (fun p =>
                 (exists k : nat, length p = (1 + 3 * k)%nat)
                 /\ (length p <= 253)%nat
                 /\ JS.len p <= MESSAGE_BODY_MAX_LENGTH
                 /\ wrapBytes p = [1; JS.len p; checksum p; 2] ++ p ++ [3]
                 /\ wrapBytes p <> [])
              packets
    /\ getBluetoothPacket frames placementPositions colors
       = JS.Returns (concat (map frame_of packets)).
Proof.
  intros Hencs.
  pose proof (encodedFrames_triples _ _ _ _ Hencs) as Htriples.
  pose proof (logicalPackets_run _ _ _ _ Hencs) as Hrun.
  destruct (wrap_sized _ (assignMarkers_sized encs Htriples)) as [Hok Hout].
  exists (assignMarkers (rawPackets encs)).
  split; [exact Hrun|]. split; [exact Hok|].
  unfold getBluetoothPacket. rewrite Hrun. simpl. now rewrite Hout.
Qed.

Lemma packets_fit_frames_witness :
  exists packets,
    logicalPackets "p5r00FF00" {[ "5"%string := 1024 ]} ∅ = JS.Returns packets
    /\ getBluetoothPacket "p5r00FF00" {[ "5"%string := 1024 ]} ∅
       = JS.Returns (concat (map frame_of packets)).
Proof.
  destruct (packets_fit_frames "p5r00FF00" {[ "5"%string := 1024 ]} ∅
              [[0; 4; 28]])
    as (packets & Hrun & _ & Hout).
  { vm_compute. reflexivity. }
  exists packets. split; [exact Hrun | exact Hout].
Defined.

(** * Transport chunker *)

Section Chunker.

Context {A : Type}.
Implicit Types (l c : list A) (result chunks : list (list A)).

(** The [i]-th chunk of size [n]: the elements at [i * n .. i * n + n - 1]. *)
Lemma slice_chunk (n : Z) l (i : nat) :
  0 < n ->
  JS.slice (n * Z.of_nat i) (n * Z.of_nat i + n) l
  = take (Z.to_nat n) (drop (i * Z.to_nat n) l).
Proof.
  intros Hn. unfold JS.slice. f_equal; [f_equal; lia|].
  f_equal. rewrite Z2Nat.inj_mul, Nat2Z.id by lia. lia.
Qed.

(** The loop invariant: [idx] is [n] times the number of chunks pushed,
    every chunk pushed is the slice at its index, and the last one pushed
    started inside the list. *)
Lemma splitEvery_loop_spec (n : Z) (Hn : 0 < n) l (idx : Z) result :
  idx = n * JS.len result ->
  (forall (i : nat) c, result !! i = Some c ->
     c = take (Z.to_nat n) (drop (i * Z.to_nat n) l)) ->
  (result = [] \/ n * (JS.len result - 1) < JS.len l) ->
  JS.len l <= n * JS.len (splitEvery_loop n Hn l idx result)
  /\ (forall (i : nat) c, splitEvery_loop n Hn l idx result !! i = Some c ->
        c = take (Z.to_nat n) (drop (i * Z.to_nat n) l))
  /\ (splitEvery_loop n Hn l idx result = []
      \/ n * (JS.len (splitEvery_loop n Hn l idx result) - 1) < JS.len l).
Proof.
  funelim (splitEvery_loop n Hn l idx result); intros Hidx Hchunks Hlast.
  - apply H; clear H.
    + unfold JS.len in *. rewrite length_app. simpl. lia.
    + intros i c Hi. apply lookup_snoc_Some in Hi as [[_ Hi] | [-> <-]].
      * now apply Hchunks.
      * rewrite Hidx. unfold JS.len. now apply slice_chunk.
    + right. unfold JS.len in *. rewrite length_app. simpl. lia.
  - repeat split; [lia | exact Hchunks | exact Hlast].
Qed.

Lemma chunks_concat (m : nat) l chunks :
  (forall (i : nat) c, chunks !! i = Some c -> c = take m (drop (i * m) l)) ->
  concat chunks = take (length chunks * m) l.
Proof.
  induction chunks as [|c chunks IH] using rev_ind; intros Hchunks.
  - now rewrite take_0.
  - rewrite concat_app, IH.
    + simpl. rewrite app_nil_r.
      rewrite (Hchunks (length chunks) c) by apply list_lookup_middle, eq_refl.
      rewrite take_take_drop, length_app. simpl. f_equal. lia.
    + intros i c' Hi. apply Hchunks. now apply lookup_app_l_Some.
Qed.

End Chunker.

Section ChunkerLaws.

Context {A : Type}.
Implicit Types (l c : list A) (chunks : list (list A)).

Lemma splitEvery_throws (n : Z) l :
  n <= 0 ->
  splitEvery n l
  = JS.Throws
      (JS.Error "First argument to splitEvery must be a positive integer").
Proof.
  intros Hn. unfold splitEvery. destruct (Z_lt_dec 0 n); [lia | reflexivity].
Qed.

(** With a positive size the call returns, and the chunks are the
    consecutive slices of the list. *)
Lemma splitEvery_chunks (n : Z) l :
  0 < n ->
  exists chunks,
    splitEvery n l = JS.Returns chunks
    /\ (length l <= length chunks * Z.to_nat n)%nat
    /\ (forall (i : nat) c, chunks !! i = Some c ->
          c = take (Z.to_nat n) (drop (i * Z.to_nat n) l))
    /\ (chunks = [] \/ ((length chunks - 1) * Z.to_nat n < length l)%nat).
Proof.
  intros Hn. unfold splitEvery.
  destruct (Z_lt_dec 0 n) as [Hn'|]; [| lia].
  eexists. split; [reflexivity|].
  destruct (splitEvery_loop_spec n Hn' l 0 []) as (Hcover & Hchunks & Hlast).
  { unfold JS.len. simpl. lia. }
  { intros i c Hi. discriminate. }
  { now left. }
  set (chunks := splitEvery_loop n Hn' l 0 []) in *.
  unfold JS.len in *.
  split; [| split; [exact Hchunks|]].
  - apply Nat2Z.inj_le. rewrite Nat2Z.inj_mul, Z2Nat.id by lia. lia.
  - clearbody chunks.
    destruct chunks as [|c0 chunks']; [now left | right].
    destruct Hlast as [Hnil | Hlt]; [discriminate|].
    apply Nat2Z.inj_lt. rewrite Nat2Z.inj_mul, Z2Nat.id by lia.
    rewrite Nat2Z.inj_sub by (simpl; lia). simpl length in *. lia.
Qed.

End ChunkerLaws.

(** C7. For a chunk size [n > 0], [splitEvery n list] returns the ordered,
    non-overlapping partition of the list into its consecutive slices of
    [n] elements: every chunk but the last has exactly [n] elements, the
    last has between 1 and [n], and concatenating the chunks gives back
    the list. Being a function of its arguments, it yields the same
    partition whenever it is called again. A list of 45 elements with
    size 20 gives chunks of lengths 20, 20 and 5. For [n <= 0] the call
    fails with an error. *)
Theorem splitEvery_partition {A : Type} (n : Z) (l : list A) :
  (0 < n ->
   exists chunks,
     splitEvery n l = JS.Returns chunks
     /\ concat chunks = l
     /\ (forall (i : nat) c, chunks !! i = Some c ->
           c = JS.slice (n * Z.of_nat i) (n * Z.of_nat i + n) l)
     /\ (forall (i : nat) c, chunks !! i = Some c ->
           (i + 1 < length chunks)%nat -> JS.len c = n)
     /\ (forall c, last chunks = Some c -> 1 <= JS.len c <= n))
  /\ (n <= 0 ->
      splitEvery n l
      = JS.Throws
          (JS.Error "First argument to splitEvery must be a positive integer"))
  /\ (length l = 45%nat ->
      exists chunks,
        splitEvery 20 l = JS.Returns chunks
        /\ map length chunks = [20; 20; 5]%nat).
Proof.
  split; [| split; [apply splitEvery_throws |]].
  - intros Hn.
    destruct (splitEvery_chunks n l Hn) as (chunks & Hrun & Hcover & Hchunks & Hlast).
    exists chunks. split; [exact Hrun|].
    assert (Hm : (0 < Z.to_nat n)%nat) by lia.
    assert (HmZ : Z.of_nat (Z.to_nat n) = n) by lia.
    set (m := Z.to_nat n) in *.
    split; [| split; [| split]].
    + rewrite (chunks_concat m l chunks Hchunks). now apply take_ge.
    + intros i c Hi. rewrite slice_chunk by exact Hn. now apply Hchunks.
    + intros i c Hi Hnext. rewrite (Hchunks i c Hi).
      unfold JS.len. rewrite length_take, length_drop.
      destruct Hlast as [-> | Hlt]; [simpl in Hnext; lia|].
      assert ((i + 1) * m <= (length chunks - 1) * m)%nat
        by (apply Nat.mul_le_mono_r; lia).
      lia.
    + intros c Hc. rewrite last_lookup in Hc.
      destruct Hlast as [-> | Hlt]; [discriminate|].
      rewrite (Hchunks _ c Hc).
      unfold JS.len. rewrite length_take, length_drop.
      replace (Nat.pred (length chunks)) with (length chunks - 1)%nat by lia.
      lia.
  - intros Hl.
    destruct (splitEvery_chunks 20 l ltac:(lia))
      as (chunks & Hrun & Hcover & Hchunks & Hlast).
    exists chunks. split; [exact Hrun|].
    change (Z.to_nat 20) with 20%nat in *. rewrite Hl in *.
    destruct Hlast as [-> | Hlt]; [simpl in Hcover; lia|].
    destruct chunks as [|c0 [|c1 [|c2 [|c3 chunks]]]]; simpl in Hcover, Hlt;
      try lia.
    rewrite (Hchunks 0%nat c0 eq_refl), (Hchunks 1%nat c1 eq_refl),
      (Hchunks 2%nat c2 eq_refl).
    cbn [map]. rewrite !length_take, !length_drop, Hl. reflexivity.
Qed.

Lemma splitEvery_partition_witness :
  (exists chunks,
     splitEvery 2 [1; 2; 3; 4; 5] = JS.Returns chunks
     /\ concat chunks = [1; 2; 3; 4; 5])
  /\ splitEvery 0 [1; 2; 3; 4; 5]
     = JS.Throws
         (JS.Error "First argument to splitEvery must be a positive integer")
  /\ (exists chunks,
        splitEvery 20 (replicate 45 7) = JS.Returns chunks
        /\ map length chunks = [20; 20; 5]%nat).
Proof.
  split; [| split].
  - destruct (proj1 (splitEvery_partition 2 [1; 2; 3; 4; 5]) ltac:(lia))
      as (chunks & Hrun & Hcat & _).
    exists chunks. split; [exact Hrun | exact Hcat].
  - apply (proj1 (proj2 (splitEvery_partition 0 [1; 2; 3; 4; 5]))). lia.
  - apply (proj2 (proj2 (splitEvery_partition 20 (replicate 45 7)))).
    reflexivity.
Defined.


(** * When the splitter closes a buffer *)

Lemma pushFrame_cases (st : splitter) (e : list Z) :
  pushFrame st e
  = (if JS.len (tempArray st) + 3 >? MESSAGE_BODY_MAX_LENGTH
     then Splitter (resultArray st ++ [tempArray st]) ([PACKET_MIDDLE] ++ e)
     else Splitter (resultArray st) (tempArray st ++ e)).
Proof.
  unfold pushFrame.
  now destruct (JS.len (tempArray st) + 3 >? MESSAGE_BODY_MAX_LENGTH).
Qed.

(** C1, as the code has it. The splitter starts a new packet exactly when
    the buffer's length plus 3 exceeds MESSAGE_BODY_MAX_LENGTH = 255, that
    is, when the buffer already holds 253 bytes (the marker and 84
    triples): for every input, before each triple is appended, in that
    case the buffer is pushed to the result and a fresh buffer holding
    only the placeholder marker is started; in both cases the triple is
    then appended to the current buffer. *)
Theorem splitter_closes_full_buffer (frames : string)
    (placementPositions : gmap string Z) (colors : gmap string string)
    (encs : list (list Z)) :
  encodedFrames placementPositions colors (JS.split "p" frames)
    = JS.Returns encs ->
  logicalPackets frames placementPositions colors
    = JS.Returns (assignMarkers (rawPackets encs))
  /\ forall pre e post, encs = pre ++ e :: post ->
       length e = 3%nat
       /\ splitterAfter (pre ++ [e])
          = (if JS.len (tempArray (splitterAfter pre)) + 3
                >? MESSAGE_BODY_MAX_LENGTH
             then Splitter (resultArray (splitterAfter pre)
                              ++ [tempArray (splitterAfter pre)])
                           ([PACKET_MIDDLE] ++ e)
             else Splitter (resultArray (splitterAfter pre))
                           (tempArray (splitterAfter pre) ++ e))
       /\ (JS.len (tempArray (splitterAfter pre)) + 3 > MESSAGE_BODY_MAX_LENGTH
           <-> JS.len (tempArray (splitterAfter pre)) = 253).
Proof.
  intros Hencs. split; [now apply logicalPackets_run|].
  intros pre e post ->.
  pose proof (encodedFrames_triples _ _ _ _ Hencs) as Htriples.
  apply Forall_app in Htriples as [Hpre Hrest].
  inversion Hrest as [|? ? [He _] _]; subst.
  pose proof (fold_pushFrame_ok pre _ Hpre initialSplitter_ok) as Hok.
  fold (splitterAfter pre) in Hok.
  split; [exact He|]. split.
  - unfold splitterAfter. rewrite fold_left_app. cbn [fold_left].
    apply pushFrame_cases.
  - rewrite (close_iff_full _ Hok). unfold JS.len. lia.
Qed.

Lemma splitter_closes_full_buffer_witness :
  logicalPackets (repeatFrames 85 "p1rFF0000") ∅ ∅
  = JS.Returns (assignMarkers (rawPackets (replicate 85 [0; 0; 224])))
  /\ (splitterAfter (replicate 84 [0; 0; 224] ++ [[0; 0; 224]])
      = Splitter [tempArray (splitterAfter (replicate 84 [0; 0; 224]))]
                 ([PACKET_MIDDLE] ++ [0; 0; 224])
      /\ JS.len (tempArray (splitterAfter (replicate 84 [0; 0; 224]))) = 253)
  /\ splitterAfter (replicate 2 [0; 0; 224] ++ [[0; 0; 224]])
     = Splitter [] (tempArray (splitterAfter (replicate 2 [0; 0; 224]))
                    ++ [0; 0; 224]).
Proof.
  destruct (splitter_closes_full_buffer (repeatFrames 85 "p1rFF0000") ∅ ∅
              (replicate 85 [0; 0; 224])) as [Hrun Hstep].
  { vm_compute. reflexivity. }
  split; [exact Hrun|]. split.
  - destruct (Hstep (replicate 84 [0; 0; 224]) [0; 0; 224] [] eq_refl)
      as (_ & Heq & Hiff).
    split.
    + rewrite Heq. vm_compute. reflexivity.
    + apply Hiff. vm_compute. reflexivity.
  - destruct (Hstep (replicate 2 [0; 0; 224]) [0; 0; 224]
                (replicate 82 [0; 0; 224]) eq_refl) as (_ & Heq & _).
    rewrite Heq. vm_compute. reflexivity.
Defined.

(** C1 as worded fails: after 83 pairs the buffer holds 250 bytes, so its
    length plus 3 exceeds 252, yet the 84th triple is appended to it and
    nothing is pushed to the result. *)
Lemma splitter_threshold_counterexample :
  encodedFrames ∅ ∅ (JS.split "p" (repeatFrames 84 "p1rFF0000"))
  = JS.Returns (replicate 83 [0; 0; 224] ++ [[0; 0; 224]])
  /\ JS.len (tempArray (splitterAfter (replicate 83 [0; 0; 224]))) + 3
     > MESSAGE_BODY_MAX_LENGTH - 3
  /\ splitterAfter (replicate 83 [0; 0; 224] ++ [[0; 0; 224]])
     = Splitter [] (tempArray (splitterAfter (replicate 83 [0; 0; 224]))
                    ++ [0; 0; 224])
  /\ splitterAfter (replicate 83 [0; 0; 224] ++ [[0; 0; 224]])
     <> Splitter (resultArray (splitterAfter (replicate 83 [0; 0; 224]))
                  ++ [tempArray (splitterAfter (replicate 83 [0; 0; 224]))])
                 ([PACKET_MIDDLE] ++ [0; 0; 224]).
Proof.
  split; [vm_compute; reflexivity|].
  split; [vm_compute; reflexivity|].
  split; [vm_compute; reflexivity|].
  vm_compute. discriminate.
Qed.

(** * The pipeline on an input without pairs *)

(** C8, as the code has it. For an input with zero pairs the pipeline
    produces the one logical packet [[84]] (ONLY); its wrapped frame is
    [[1, 1, checksum([84]), 2, 84, 3]]; chunking that stream with chunk
    size 20 gives exactly one transport unit, of 6 bytes. *)
Theorem zero_pairs_pipeline (frames : string)
    (placementPositions : gmap string Z) (colors : gmap string string) :
  encodedFrames placementPositions colors (JS.split "p" frames)
    = JS.Returns [] ->
  logicalPackets frames placementPositions colors
    = JS.Returns [[PACKET_ONLY]]
  /\ getBluetoothPacket frames placementPositions colors
     = JS.Returns [1; 1; checksum [84]; 2; 84; 3]
  /\ JS.bind (getBluetoothPacket frames placementPositions colors)
             (splitEvery MAX_BLUETOOTH_MESSAGE_SIZE)
     = JS.Returns [[1; 1; checksum [84]; 2; 84; 3]]
  /\ JS.len [1; 1; checksum [84]; 2; 84; 3] = 6.
Proof.
  intros Hencs.
  pose proof (logicalPackets_run _ _ _ _ Hencs) as Hrun.
  change (assignMarkers (rawPackets [])) with [[PACKET_ONLY]] in Hrun.
  unfold getBluetoothPacket. rewrite Hrun.
  repeat split.
Qed.

Lemma zero_pairs_pipeline_witness :
  JS.bind (getBluetoothPacket "" ∅ ∅) (splitEvery MAX_BLUETOOTH_MESSAGE_SIZE)
  = JS.Returns [[1; 1; checksum [84]; 2; 84; 3]].
Proof.
  apply (zero_pairs_pipeline "" ∅ ∅). reflexivity.
Defined.

(** C8 as worded fails: the single transport unit has 6 bytes, not 8. *)
Lemma zero_pairs_unit_counterexample :
  JS.bind (getBluetoothPacket "" ∅ ∅) (splitEvery 20)
  = JS.Returns [[1; 1; 171; 2; 84; 3]]
  /\ length [1; 1; 171; 2; 84; 3] = 6%nat
  /\ length [1; 1; 171; 2; 84; 3] <> 8%nat.
Proof.
  split; [vm_compute; reflexivity|]. split; [reflexivity | discriminate].
Qed.

(** * What happens on invalid input *)

Section Validation.

Lemma split_head (sep : ascii) (a b : string) :
  no_char sep a = true ->
  JS.split sep (String.append a (String sep b)) = a :: JS.split sep b.
Proof.
  induction a as [|c a IH]; simpl; intros Ha.
  - now rewrite Ascii.eqb_refl.
  - apply andb_prop in Ha as [Hc Ha].
    apply negb_true_iff in Hc. rewrite Hc, (IH Ha). reflexivity.
Qed.

Lemma split_nonempty (sep : ascii) (s : string) :
  exists piece pieces, JS.split sep s = piece :: pieces.
Proof.
  induction s as [|c s (piece & pieces & IH)]; simpl; [now eexists _, _|].
  destruct (Ascii.eqb c sep); [now eexists _, _|].
  rewrite IH. now eexists _, _.
Qed.

Lemma append_nonempty (a b : string) (c : ascii) :
  (0 <? Z.of_nat (String.length (String.append a (String c b)))) = true.
Proof. apply Z.ltb_lt. destruct a; simpl; lia. Qed.

Lemma split_none (sep : ascii) (a : string) :
  no_char sep a = true -> JS.split sep a = [a].
Proof.
  induction a as [|c a IH]; simpl; intros Ha; [reflexivity|].
  apply andb_prop in Ha as [Hc Ha].
  apply negb_true_iff in Hc. now rewrite Hc, (IH Ha).
Qed.

(** A frame [placement r role] whose role names no inherited property is
    always encoded: with the colour found in [colors], or else with the
    role itself as colour. *)
Lemma encodeFrame_returns (placementPositions : gmap string Z)
    (colors : gmap string string) (placement role : string) :
  no_char "r" placement = true ->
  no_char "r" role = true ->
  JS.inherited role = false ->
  exists color,
    (color = role \/ colors !! role = Some color)
    /\ encodeFrame placementPositions colors
         (String.append placement (String "r" role))
       = JS.Returns
           (encodePositionAndColor
              (JS.Number (placementPositions !! placement)) color).
Proof.
  intros Hplacement Hrole Hown. unfold encodeFrame. cbv zeta.
  rewrite (split_head _ _ _ Hplacement), (split_none _ _ Hrole).
  change ([placement; role] !! 0%nat) with (Some placement).
  change ([placement; role] !! 1%nat) with (Some role).
  cbn [default from_option id]. rewrite Hown.
  destruct (colors !! role) as [c|] eqn:Hc.
  - destruct (0 <? Z.of_nat (String.length c)).
    + exists c. split; [now right | reflexivity].
    + exists role. split; [now left | reflexivity].
  - exists role. split; [now left | reflexivity].
Qed.

(** A frame whose placement is not in the lookup is encoded with the
    position bytes 0, 0 and pushed like any other. *)
Lemma forEachFrame_unknown_placement (placementPositions : gmap string Z)
    (colors : gmap string string) (st : splitter) (placement role : string) :
  no_char "r" placement = true ->
  no_char "r" role = true ->
  JS.inherited role = false ->
  placementPositions !! placement = None ->
  exists colorByte,
    forEachFrame placementPositions colors st
      (String.append placement (String "r" role))
    = JS.Returns (pushFrame st [0; 0; colorByte]).
Proof.
  intros Hplacement Hrole Hown Hmissing. unfold forEachFrame.
  rewrite append_nonempty.
  destruct (encodeFrame_returns placementPositions colors placement role
              Hplacement Hrole Hown) as (color & _ & ->).
  rewrite Hmissing. exists (encodeColor color). reflexivity.
Qed.

Lemma no_hex_substring (a b : nat) (s : string) :
  no_hex_digit s = true -> no_hex_digit (JS.substring a b s) = true.
Proof.
  unfold JS.substring. generalize (b - a)%nat as m. clear b. revert a.
  unfold no_hex_digit.
  induction s as [|c s IH]; intros a m Hs.
  - now destruct a, m.
  - simpl in Hs. apply andb_prop in Hs as [Hc Hs].
    destruct a as [|a]; [destruct m as [|m] |]; simpl.
    + reflexivity.
    + rewrite Hc. apply (IH 0%nat m Hs).
    + apply (IH a m Hs).
Qed.

Lemma component_no_hex (s : string) :
  (String.length s <= 2)%nat -> no_hex_digit s = true ->
  component s 32 = 0 /\ component s 64 = 0.
Proof.
  intros Hshort Hs.
  assert (Hall : for_all_short non_hex_component_ok = true)
    by (vm_compute; reflexivity).
  pose proof (for_all_short_spec _ Hall s Hshort) as H.
  unfold non_hex_component_ok in H. rewrite Hs in H. simpl in H.
  apply andb_prop in H as [H1 H2]. lia.
Qed.

Lemma encodeColor_no_hex (color : string) :
  no_hex_digit color = true -> encodeColor color = 0.
Proof.
  intros Hcolor. rewrite encodeColor_formula.
  destruct (component_no_hex _ (substring_short 0 2 color)
              (no_hex_substring 0 2 color Hcolor)) as [-> _].
  destruct (component_no_hex _ (substring_short 2 4 color)
              (no_hex_substring 2 4 color Hcolor)) as [-> _].
  destruct (component_no_hex _ (substring_short 4 6 color)
              (no_hex_substring 4 6 color Hcolor)) as [_ ->].
  reflexivity.
Qed.

End Validation.

(** C9, as the code has it. Of the four validation failures only a
    non-positive chunk size is reported as an error: [splitEvery] throws.
    A body longer than 255 bytes makes [wrapBytes] return the empty
    sequence; a position id absent from the lookup is encoded as the
    position bytes 0, 0 and its frame is appended like any other (for a
    role without [r] that names no inherited property); a colour string
    without any hexadecimal digit is encoded as the byte 0. None of these
    three raises an error. *)
Theorem validation_outcomes :
  (forall (A : Type) (n : Z) (l : list A),
     n <= 0 ->
     splitEvery n l
     = JS.Throws
         (JS.Error "First argument to splitEvery must be a positive integer"))
  /\ (forall body : list Z,
        MESSAGE_BODY_MAX_LENGTH < JS.len body -> wrapBytes body = [])
  /\ (forall (placementPositions : gmap string Z) (colors : gmap string string)
             (st : splitter) (placement role : string),
        no_char "r" placement = true ->
        no_char "r" role = true ->
        JS.inherited role = false ->
        placementPositions !! placement = None ->
        exists colorByte,
          forEachFrame placementPositions colors st
            (String.append placement (String "r" role))
          = JS.Returns (pushFrame st [0; 0; colorByte]))
  /\ (forall color : string,
        no_hex_digit color = true -> encodeColor color = 0).
Proof.
  split; [intros A n l; apply splitEvery_throws|].
  split; [intros body; apply (proj2 (wrapBytes_contract body))|].
  split; [apply forEachFrame_unknown_placement | apply encodeColor_no_hex].
Qed.

Lemma validation_outcomes_witness :
  splitEvery 0 [1; 2; 3]
  = JS.Throws
      (JS.Error "First argument to splitEvery must be a positive integer")
  /\ wrapBytes (replicate 256 0) = []
  /\ (exists colorByte,
        forEachFrame ∅ ∅ initialSplitter "9rZZZZZZ"
        = JS.Returns (pushFrame initialSplitter [0; 0; colorByte]))
  /\ encodeColor "ZZZZZZ" = 0.
Proof.
  destruct validation_outcomes as (Hchunk & Hbody & Hplacement & Hcolor).
  split; [apply Hchunk; lia|].
  split; [apply Hbody; vm_compute; reflexivity|].
  split; [apply (Hplacement ∅ ∅ initialSplitter "9" "ZZZZZZ"); reflexivity|].
  apply Hcolor. reflexivity.
Defined.

(** C9 as worded fails: a position id that is not in the lookup together
    with a colour that is not hexadecimal is encoded, without any error,
    as the triple 0, 0, 0 of an ordinary frame. *)
Lemma silent_encoding_counterexample :
  (∅ : gmap string Z) !! "9"%string = None
  /\ no_hex_digit "ZZZZZZ" = true
  /\ getBluetoothPacket "p9rZZZZZZ" ∅ ∅
     = JS.Returns [1; 4; 171; 2; 84; 0; 0; 0; 3].
Proof.
  split; [reflexivity|]. split; [reflexivity|]. vm_compute. reflexivity.
Qed.

(** * Further properties of the framing core *)

Section ChecksumErrors.

Lemma sum_bytes_app (a b : list Z) :
  sum_bytes (a ++ b) = sum_bytes a + sum_bytes b.
Proof. induction a as [|x a IH]; simpl; lia. Qed.

Lemma sum_bytes_perm (a b : list Z) :
  Permutation a b -> sum_bytes a = sum_bytes b.
Proof. induction 1; simpl; lia. Qed.

End ChecksumErrors.

(** X1. The checksum detects every corruption of a single byte: two
    bodies that differ in exactly one position, by two different byte
    values, have different checksums. *)
Theorem checksum_detects_single_byte (pre post : list Z) (x y : Z) :
  is_byte x -> is_byte y -> x <> y ->
  checksum (pre ++ x :: post) <> checksum (pre ++ y :: post).
Proof.
  unfold is_byte. intros Hx Hy Hxy.
  rewrite !checksum_closed, !sum_bytes_app. simpl.
  set (a := sum_bytes pre). set (b := sum_bytes post).
  intros Heq.
  assert (Hmod : (a + (x + b)) mod 256 = (a + (y + b)) mod 256) by lia.
  assert (Hdiff : (x - y) mod 256 = 0).
  { replace (x - y) with ((a + (x + b)) - (a + (y + b))) by lia.
    rewrite Zminus_mod, Hmod, Z.sub_diag. reflexivity. }
  apply Z.mod_divide in Hdiff; [| lia].
  destruct Hdiff as [k Hk]. lia.
Qed.

Lemma checksum_detects_single_byte_witness :
  is_byte 7 /\ checksum ([84] ++ 7 :: [1; 2]) <> checksum ([84] ++ 8 :: [1; 2]).
Proof.
  split; [unfold is_byte; lia|].
  apply (checksum_detects_single_byte [84] [1; 2] 7 8);
    unfold is_byte; lia.
Defined.

(** X2. The checksum does not see the order of the bytes: a body and any
    rearrangement of it have the same checksum. *)
Theorem checksum_ignores_order (d d' : list Z) :
  Permutation d d' -> checksum d = checksum d'.
Proof.
  intros Hperm. now rewrite !checksum_closed, (sum_bytes_perm d d' Hperm).
Qed.

Lemma checksum_ignores_order_witness :
  checksum [84; 1; 2; 3] = checksum [84; 3; 2; 1].
Proof.
  apply (checksum_ignores_order [84; 1; 2; 3] [84; 3; 2; 1]).
  apply perm_skip. apply (Permutation_rev [1; 2; 3]).
Defined.

Section FrameStream.

Lemma wrapBytes_inj (p q : list Z) (rest1 rest2 : list Z) :
  JS.len p <= MESSAGE_BODY_MAX_LENGTH ->
  JS.len q <= MESSAGE_BODY_MAX_LENGTH ->
  wrapBytes p ++ rest1 = wrapBytes q ++ rest2 ->
  p = q /\ rest1 = rest2.
Proof.
  intros Hp Hq. rewrite !wrapBytes_fits by assumption.
  unfold frame_of. cbn [app]. intros Heq.
  injection Heq as Hlen _ Hbody.
  rewrite <- !app_assoc in Hbody.
  apply app_inj_1 in Hbody as [-> Hrest].
  - split; [reflexivity|]. now injection Hrest.
  - unfold JS.len in Hlen. lia.
Qed.

End FrameStream.

(** X3. A stream of frames can be cut back into its packets in one way
    only: two lists of bodies of at most 255 bytes whose wrapped frames
    concatenate to the same stream are the same list. *)
Theorem frame_stream_unique (ps qs : list (list Z)) :
  Forall (fun p => JS.len p <= MESSAGE_BODY_MAX_LENGTH) ps ->
  Forall (fun q => JS.len q <= MESSAGE_BODY_MAX_LENGTH) qs ->
  concat (map wrapBytes ps) = concat (map wrapBytes qs) ->
  ps = qs.
Proof.
  revert qs. induction ps as [|p ps IH]; intros qs Hps Hqs Heq.
  - destruct qs as [|q qs]; [reflexivity|].
    inversion Hqs as [|? ? Hq _]; subst.
    simpl in Heq. rewrite (wrapBytes_fits q Hq) in Heq. discriminate.
  - inversion Hps as [|? ? Hp Hps']; subst.
    destruct qs as [|q qs].
    + simpl in Heq. rewrite (wrapBytes_fits p Hp) in Heq. discriminate.
    + inversion Hqs as [|? ? Hq Hqs']; subst. simpl in Heq.
      apply wrapBytes_inj in Heq as [-> Hrest]; [| assumption..].
      f_equal. now apply IH.
Qed.

Lemma frame_stream_unique_witness :
  [[84; 0; 4; 28]] = [[84; 0; 4; 28]].
Proof.
  apply (frame_stream_unique [[84; 0; 4; 28]] [[84; 0; 4; 28]]).
  - repeat constructor; vm_compute; discriminate.
  - repeat constructor; vm_compute; discriminate.
  - reflexivity.
Defined.

Section ColourFields.

Lemma unpack_small (r g b : Z) :
  0 <= r <= 7 -> 0 <= g <= 7 -> 0 <= b <= 3 ->
  Z.shiftr (Z.lor (Z.lor (Z.shiftl r 5) (Z.shiftl g 2)) b) 5 = r
  /\ Z.land (Z.shiftr (Z.lor (Z.lor (Z.shiftl r 5) (Z.shiftl g 2)) b) 2) 7 = g
  /\ Z.land (Z.lor (Z.lor (Z.shiftl r 5) (Z.shiftl g 2)) b) 3 = b.
Proof.
  intros Hr Hg Hb.
  assert (r = 0 \/ r = 1 \/ r = 2 \/ r = 3 \/ r = 4 \/ r = 5 \/ r = 6 \/ r = 7)
    as Er by lia.
  assert (g = 0 \/ g = 1 \/ g = 2 \/ g = 3 \/ g = 4 \/ g = 5 \/ g = 6 \/ g = 7)
    as Eg by lia.
  assert (b = 0 \/ b = 1 \/ b = 2 \/ b = 3) as Eb by lia.
  clear Hr Hg Hb.
  repeat (destruct Er as [Er|Er]); repeat (destruct Eg as [Eg|Eg]);
    repeat (destruct Eb as [Eb|Eb]); subst r g b; repeat split.
Qed.

End ColourFields.

(** X4. The three fields of the colour byte do not overlap: from the
    byte of a colour RRGGBB one reads back the quantized components,
    R div 32 in bits 5-7, G div 32 in bits 2-4 and B div 64 in bits
    0-1. *)
Theorem encodeColor_fields (r1 r2 g1 g2 b1 b2 : ascii) (R G B : Z) :
  hex_byte r1 r2 = Some R ->
  hex_byte g1 g2 = Some G ->
  hex_byte b1 b2 = Some B ->
  let byte :=
    encodeColor
      (String r1 (String r2 (String g1 (String g2 (String b1 (String b2
         EmptyString)))))) in
  Z.shiftr byte 5 = R / 32
  /\ Z.land (Z.shiftr byte 2) 7 = G / 32
  /\ Z.land byte 3 = B / 64.
Proof.
  intros HR HG HB byte. subst byte. rewrite encodeColor_formula.
  change (JS.substring 0 2 _) with (String r1 (String r2 EmptyString)).
  change (JS.substring 2 4 _) with (String g1 (String g2 EmptyString)).
  change (JS.substring 4 6 _) with (String b1 (String b2 EmptyString)).
  destruct (component_hex _ _ _ HR) as (HRb & -> & _).
  destruct (component_hex _ _ _ HG) as (HGb & -> & _).
  destruct (component_hex _ _ _ HB) as (HBb & _ & ->).
  rewrite !Z.quot_div_nonneg by lia.
  apply unpack_small.
  - split; [apply Z.div_pos; lia | apply Z.lt_succ_r, Z.div_lt_upper_bound; lia].
  - split; [apply Z.div_pos; lia | apply Z.lt_succ_r, Z.div_lt_upper_bound; lia].
  - split; [apply Z.div_pos; lia | apply Z.lt_succ_r, Z.div_lt_upper_bound; lia].
Qed.

Lemma encodeColor_fields_witness :
  Z.shiftr (encodeColor "3c9Af0") 5 = 60 / 32
  /\ Z.land (Z.shiftr (encodeColor "3c9Af0") 2) 7 = 154 / 32
  /\ Z.land (encodeColor "3c9Af0") 3 = 240 / 64.
Proof.
  apply (encodeColor_fields "3" "c" "9" "A" "f" "0" 60 154 240); reflexivity.
Defined.

Section Payload.

Implicit Types (st : splitter) (e p : list Z) (encs : list (list Z)).

Lemma drop1_setMarker (m : Z) p : drop 1 (setMarker m p) = drop 1 p.
Proof. now destruct p. Qed.

Lemma payload_pushFrame st e :
  splitter_ok st ->
  concat (map (drop 1) (resultArray (pushFrame st e)
                        ++ [tempArray (pushFrame st e)]))
  = concat (map (drop 1) (resultArray st ++ [tempArray st])) ++ e.
Proof.
  intros [(k & Hlen & _) _]. rewrite pushFrame_cases.
  destruct (JS.len (tempArray st) + 3 >? MESSAGE_BODY_MAX_LENGTH);
    cbn [resultArray tempArray].
  - rewrite !map_app, !concat_app. simpl. now rewrite !app_nil_r.
  - rewrite !map_app, !concat_app. simpl. rewrite !app_nil_r.
    destruct (tempArray st) as [|marker body]; [simpl in Hlen; lia|].
    simpl. now rewrite drop_0, app_assoc.
Qed.

Lemma payload_fold encs : forall st,
  Forall (fun e => length e = 3%nat /\ Forall is_byte e) encs ->
  splitter_ok st ->
  concat (map (drop 1) (resultArray (fold_left pushFrame encs st)
                        ++ [tempArray (fold_left pushFrame encs st)]))
  = concat (map (drop 1) (resultArray st ++ [tempArray st])) ++ concat encs.
Proof.
  induction encs as [|e encs IH]; intros st Hencs Hst; simpl.
  - now rewrite app_nil_r.
  - inversion Hencs as [|? ? [He Hb] Hrest]; subst.
    rewrite IH; [| exact Hrest | now apply pushFrame_ok].
    now rewrite payload_pushFrame, app_assoc.
Qed.

Lemma payload_assignMarkers encs :
  map (drop 1) (assignMarkers (rawPackets encs))
  = map (drop 1) (rawPackets encs).
Proof.
  destruct (assignMarkers_rawPackets encs) as [[Hnil ->] | (p & mid & Hcons & ->)];
    unfold rawPackets.
  - rewrite Hnil. simpl. now rewrite drop1_setMarker.
  - rewrite Hcons. simpl. rewrite !map_app. simpl.
    now rewrite !drop1_setMarker.
Qed.

Lemma payload_packets encs :
  Forall (fun e => length e = 3%nat /\ Forall is_byte e) encs ->
  concat (map (drop 1) (assignMarkers (rawPackets encs))) = concat encs.
Proof.
  intros Hencs. rewrite payload_assignMarkers. unfold rawPackets, splitterAfter.
  now rewrite (payload_fold encs _ Hencs initialSplitter_ok).
Qed.

(** How full the splitter is after [n >= 1] triples: [q] closed packets
    and [k] triples in the buffer, with [n = 84 * q + k], [1 <= k <= 84]. *)
Lemma splitterAfter_count encs :
  Forall (fun e => length e = 3%nat /\ Forall is_byte e) encs ->
  encs <> [] ->
  exists q k : nat,
    length encs = (84 * q + k)%nat /\ (1 <= k <= 84)%nat
    /\ length (resultArray (splitterAfter encs)) = q
    /\ length (tempArray (splitterAfter encs)) = (1 + 3 * k)%nat.
Proof.
  induction encs as [|e encs IH] using rev_ind; intros Hencs Hne;
    [congruence|].
  apply Forall_app in Hencs as [Hencs He].
  apply Forall_inv in He as [He _].
  unfold splitterAfter. rewrite fold_left_app. cbn [fold_left].
  fold (splitterAfter encs). rewrite pushFrame_cases, length_app. cbn [length].
  destruct encs as [|e0 encs'].
  - exists 0%nat, 1%nat. vm_compute tempArray. vm_compute resultArray.
    simpl. rewrite He. repeat split; lia.
  - destruct (IH Hencs ltac:(discriminate)) as (q & k & Hn & Hk & Hq & Ht).
    cbn [length] in Hn.
    destruct (Z.gtb_spec (JS.len (tempArray (splitterAfter (e0 :: encs'))) + 3)
                MESSAGE_BODY_MAX_LENGTH) as [Hgt|Hle];
      unfold JS.len, MESSAGE_BODY_MAX_LENGTH in *; cbn [resultArray tempArray].
    + exists (S q), 1%nat. rewrite length_app. simpl length.
      repeat split; lia.
    + exists q, (S k). rewrite length_app. cbn [length].
      repeat split; lia.
Qed.

Lemma closed_total (ra : list (list Z)) :
  Forall closed_ok ra -> length (concat ra) = (253 * length ra)%nat.
Proof.
  induction 1 as [|p ra (Hp & _) _ IH]; simpl; [lia|].
  rewrite length_app. lia.
Qed.

Lemma frames_total (packets : list (list Z)) :
  length (concat (map frame_of packets))
  = (length (concat packets) + 5 * length packets)%nat.
Proof.
  induction packets as [|p0 packets IH]; [reflexivity|].
  cbn [map concat length]. rewrite !length_app, IH.
  unfold frame_of. rewrite !length_app. cbn [length]. lia.
Qed.

Lemma assignMarkers_total encs :
  Forall (fun e => length e = 3%nat /\ Forall is_byte e) encs ->
  length (assignMarkers (rawPackets encs)) = length (rawPackets encs)
  /\ length (concat (assignMarkers (rawPackets encs)))
     = length (concat (rawPackets encs)).
Proof.
  intros Hencs. pose proof (rawPackets_ok encs Hencs) as Hraw.
  assert (Hkeep : forall m p,
             (exists k : nat, length p = (1 + 3 * k)%nat /\ (k <= 84)%nat)
             /\ p !! 0%nat = Some PACKET_MIDDLE /\ Forall is_byte p ->
             length (setMarker m p) = length p).
  { intros m p ((k & Hlen & _) & _). apply setMarker_length.
    intros ->. simpl in Hlen. lia. }
  destruct (assignMarkers_rawPackets encs) as [[Hnil ->] | (p & mid & Hcons & ->)];
    unfold rawPackets in *.
  - rewrite Hnil in *. apply Forall_inv in Hraw. simpl.
    rewrite !app_nil_r. split; [reflexivity | now apply Hkeep].
  - rewrite Hcons in *. simpl in Hraw.
    inversion Hraw as [|? ? Hp Hrest]; subst.
    apply Forall_app in Hrest as [_ Htemp]. apply Forall_inv in Htemp.
    simpl. rewrite !length_app, !concat_app, !length_app. simpl.
    rewrite !app_nil_r, (Hkeep _ _ Hp), (Hkeep _ _ Htemp).
    split; reflexivity.
Qed.

End Payload.

(** X5. The splitter loses, adds and reorders nothing: the packets of an
    input, each without its marker byte, concatenate to the encoded
    triples of the input in their order. *)
Theorem packets_carry_triples (frames : string)
    (placementPositions : gmap string Z) (colors : gmap string string)
    (encs : list (list Z)) :
  encodedFrames placementPositions colors (JS.split "p" frames)
    = JS.Returns encs ->
  exists packets,
    logicalPackets frames placementPositions colors = JS.Returns packets
    /\ concat (map (drop 1) packets) = concat encs.
Proof.
  intros Hencs. exists (assignMarkers (rawPackets encs)).
  split; [now apply logicalPackets_run|].
  apply payload_packets. eapply encodedFrames_triples, Hencs.
Qed.

Lemma packets_carry_triples_witness :
  exists packets,
    logicalPackets "p5r00FF00p6rFF0000" {[ "5"%string := 1024 ]} ∅
    = JS.Returns packets
    /\ concat (map (drop 1) packets) = concat [[0; 4; 28]; [0; 0; 224]].
Proof.
  apply (packets_carry_triples "p5r00FF00p6rFF0000" {[ "5"%string := 1024 ]} ∅
           [[0; 4; 28]; [0; 0; 224]]).
  vm_compute. reflexivity.
Defined.

(** X6. [N] pairs give [max 1 (ceil (N / 84))] packets, and the byte
    stream [getBluetoothPacket] returns has [3 * N] bytes of triples plus
    6 bytes (the marker and the five bytes of the wrapper) per packet. *)
Theorem stream_size (frames : string)
    (placementPositions : gmap string Z) (colors : gmap string string)
    (encs : list (list Z)) :
  encodedFrames placementPositions colors (JS.split "p" frames)
    = JS.Returns encs ->
  exists packets stream,
    logicalPackets frames placementPositions colors = JS.Returns packets
    /\ getBluetoothPacket frames placementPositions colors = JS.Returns stream
    /\ JS.len packets = Z.max 1 ((JS.len encs + 83) / 84)
    /\ JS.len stream = 3 * JS.len encs + 6 * JS.len packets.
Proof.
  intros Hencs.
  pose proof (encodedFrames_triples _ _ _ _ Hencs) as Htriples.
  pose proof (logicalPackets_run _ _ _ _ Hencs) as Hrun.
  destruct (wrap_sized _ (assignMarkers_sized encs Htriples)) as [_ Hout].
  exists (assignMarkers (rawPackets encs)), (concat (map frame_of (assignMarkers (rawPackets encs)))).
  split; [exact Hrun|].
  split; [unfold getBluetoothPacket; rewrite Hrun; simpl; now rewrite Hout|].
  unfold JS.len. rewrite frames_total.
  destruct (assignMarkers_total encs Htriples) as [-> ->].
  unfold rawPackets. rewrite concat_app, !length_app. simpl. rewrite app_nil_r.
  destruct encs as [|e0 encs'].
  - vm_compute. split; reflexivity.
  - destruct (splitterAfter_count (e0 :: encs') Htriples ltac:(discriminate))
      as (q & k & Hn & Hk & Hq & Ht).
    destruct (fold_pushFrame_ok (e0 :: encs') _ Htriples initialSplitter_ok)
      as [_ Hclosed].
    fold (splitterAfter (e0 :: encs')) in Hclosed.
    rewrite (closed_total _ Hclosed), Hq, Ht, Hn.
    assert (Hceil : (Z.of_nat (84 * q + k) + 83) / 84 = Z.of_nat q + 1).
    { symmetry. apply (Z.div_unique _ _ _ (Z.of_nat k - 1)); lia. }
    rewrite Hceil. split; lia.
Qed.

Lemma stream_size_witness :
  exists packets stream,
    logicalPackets "p5r00FF00" {[ "5"%string := 1024 ]} ∅ = JS.Returns packets
    /\ getBluetoothPacket "p5r00FF00" {[ "5"%string := 1024 ]} ∅
       = JS.Returns stream
    /\ JS.len packets = Z.max 1 ((JS.len [[0; 4; 28]] + 83) / 84)
    /\ JS.len stream = 3 * JS.len [[0; 4; 28]] + 6 * JS.len packets.
Proof.
  apply (stream_size "p5r00FF00" {[ "5"%string := 1024 ]} ∅ [[0; 4; 28]]).
  vm_compute. reflexivity.
Defined.


(** * Sending the stream *)

Section Messages.

Lemma Uint8Array_from_concat (chunks : list (list Z)) :
  concat (map JS.Uint8Array_from chunks) = JS.Uint8Array_from (concat chunks).
Proof.
  unfold JS.Uint8Array_from.
  induction chunks as [|c chunks IH]; simpl; [reflexivity|].
  now rewrite IH, map_app.
Qed.

(** The messages of a buffer: they concatenate to the buffer, each has
    between 1 and 20 bytes, and there are [ceil (length / 20)] of them. *)
Lemma splitMessages_spec (buffer : list Z) :
  exists messages,
    splitMessages buffer = JS.Returns messages
    /\ concat messages = JS.Uint8Array_from buffer
    /\ Forall (fun m => (1 <= length m <= 20)%nat) messages
    /\ JS.len messages = (JS.len buffer + 19) / 20.
Proof.
  unfold splitMessages.
  destruct (splitEvery_chunks MAX_BLUETOOTH_MESSAGE_SIZE buffer ltac:(reflexivity))
    as (chunks & -> & Hcover & Hchunks & Hlast).
  change (Z.to_nat MAX_BLUETOOTH_MESSAGE_SIZE) with 20%nat in *.
  eexists. split; [reflexivity|]. split; [| split].
  - rewrite Uint8Array_from_concat. f_equal.
    rewrite (chunks_concat 20 buffer chunks Hchunks). now apply take_ge.
  - apply Forall_fmap, Forall_lookup. intros i c Hi. simpl.
    unfold JS.Uint8Array_from. rewrite length_map.
    pose proof (lookup_lt_Some _ _ _ Hi) as Hlt.
    rewrite (Hchunks i c Hi), length_take, length_drop.
    destruct Hlast as [-> | Hlast]; [simpl in Hlt; lia | lia].
  - unfold JS.len. rewrite length_map.
    destruct Hlast as [-> | Hlast].
    + simpl in *. replace (length buffer) with 0%nat by lia. reflexivity.
    + apply (Z.div_unique _ _ _
               (Z.of_nat (length buffer) + 19
                - 20 * Z.of_nat (length chunks))); lia.
Qed.

End Messages.

(** X7. The messages handed to the link concatenate to the buffer (as
    bytes), every message holds between 1 and 20 bytes, and a buffer of
    [n] bytes is sent in [ceil (n / 20)] messages. *)
Theorem splitMessages_units (buffer : list Z) :
  exists messages,
    splitMessages buffer = JS.Returns messages
    /\ concat messages = JS.Uint8Array_from buffer
    /\ Forall (fun m => (1 <= length m <= 20)%nat) messages
    /\ JS.len messages = (JS.len buffer + 19) / 20.
Proof. apply splitMessages_spec. Qed.

Section WriteSeriesLaws.

Context {Link Value : Type}.
Variable writeValue : Link -> list Z -> Link * JS.completion Value.

Lemma writeSeries_app (pre post : list (list Z)) : forall link returnValue,
  writeCharacteristicSeries_from writeValue link returnValue (pre ++ post)
  = match writeCharacteristicSeries_from writeValue link returnValue pre with
    | (link', JS.Returns returnValue') =>
        writeCharacteristicSeries_from writeValue link' returnValue' post
    | (link', JS.Throws e) => (link', JS.Throws e)
    end.
Proof.
  induction pre as [|m pre IH]; intros link returnValue; simpl; [reflexivity|].
  destruct (writeValue link m) as [link' [v|e]]; [apply IH | reflexivity].
Qed.

End WriteSeriesLaws.

(** X8. A rejected write ends the series: when the messages before it
    were written and the link rejects the next one, the series rejects
    with that error in the state the link is then in, whatever messages
    follow; none of them is written. *)
Theorem write_series_stops {Link Value : Type}
    (writeValue : Link -> list Z -> Link * JS.completion Value)
    (link link1 link2 : Link) (pre post : list (list Z)) (m : list Z)
    (returnValue : option Value) (e : JS.exn) :
  writeCharacteristicSeries writeValue link pre
    = (link1, JS.Returns returnValue) ->
  writeValue link1 m = (link2, JS.Throws e) ->
  writeCharacteristicSeries writeValue link (pre ++ m :: post)
    = (link2, JS.Throws e).
Proof.
  unfold writeCharacteristicSeries. intros Hpre Hm.
  rewrite writeSeries_app, Hpre. simpl. now rewrite Hm.
Qed.

Lemma write_series_stops_witness :
  writeCharacteristicSeries
    (fun (written : nat) (_ : list Z) =>
       if (written <? 1)%nat then (S written, JS.Returns tt)
       else (written, JS.Throws (JS.Error "GATT operation failed")))
    0%nat ([[1; 2]] ++ [3] :: [[4]; [5]])
  = (1%nat, JS.Throws (JS.Error "GATT operation failed")).
Proof.
  apply (write_series_stops _ 0%nat 1%nat 1%nat [[1; 2]] [[4]; [5]] [3]
           (Some tt)); reflexivity.
Defined.

Section Delivery.

Lemma recording_series (messages : list (list Z)) :
  forall received returnValue,
    writeCharacteristicSeries_from recordingWrite received returnValue messages
    = (received ++ messages,
       JS.Returns (match messages with [] => returnValue | _ => Some tt end)).
Proof.
  induction messages as [|m messages IH]; intros received returnValue; simpl.
  - now rewrite app_nil_r.
  - rewrite IH, <- app_assoc. simpl. now destruct messages.
Qed.

End Delivery.

Section AcceptingLink.

Context {Link Value : Type}.
Variable writeValue : Link -> list Z -> Link * JS.completion Value.
Hypothesis accepts :
  forall link message,
    exists link' v, writeValue link message = (link', JS.Returns v).

(** When no write is rejected, the series resolves and leaves the link in
    the state the writes lead to, one after the other. *)
Lemma accepting_series (messages : list (list Z)) :
  forall link returnValue,
    exists returnValue',
      writeCharacteristicSeries_from writeValue link returnValue messages
      = (fold_left (fun l m => fst (writeValue l m)) messages link,
         JS.Returns returnValue').
Proof.
  induction messages as [|m messages IH]; intros link returnValue; simpl.
  - now eexists.
  - destruct (accepts link m) as (link' & v & Hw). rewrite Hw. simpl.
    apply IH.
Qed.

(** The series resolves with the value of the write of the last
    message. *)
Lemma accepting_series_last (earlier : list (list Z)) (last : list Z)
    (link : Link) :
  exists linkAfter v,
    writeValue (fold_left (fun l m => fst (writeValue l m)) earlier link) last
    = (linkAfter, JS.Returns v)
    /\ writeCharacteristicSeries writeValue link (earlier ++ [last])
       = (linkAfter, JS.Returns (Some v)).
Proof.
  unfold writeCharacteristicSeries. rewrite writeSeries_app.
  destruct (accepting_series earlier link None) as [returnValue ->].
  destruct (accepts (fold_left (fun l m => fst (writeValue l m)) earlier link)
              last) as (linkAfter & v & Hw).
  exists linkAfter, v. split; [exact Hw|]. simpl. now rewrite Hw.
Qed.

End AcceptingLink.

Section PipelineMessages.

(** The messages of an input whose frames all resolve. *)
Lemma pipeline_messages (frames : string)
    (placementPositions : gmap string Z) (colors : gmap string string)
    (encs : list (list Z)) :
  encodedFrames placementPositions colors (JS.split "p" frames)
    = JS.Returns encs ->
  exists packets messages,
    logicalPackets frames placementPositions colors = JS.Returns packets
    /\ JS.bind (getBluetoothPacket frames placementPositions colors)
               splitMessages
       = JS.Returns messages
    /\ concat messages = concat (map frame_of packets)
    /\ Forall (fun m => (1 <= length m <= 20)%nat) messages
    /\ messages <> [].
Proof.
  intros Hencs.
  pose proof (encodedFrames_triples _ _ _ _ Hencs) as Htriples.
  pose proof (logicalPackets_run _ _ _ _ Hencs) as Hrun.
  destruct (wrap_sized _ (assignMarkers_sized encs Htriples)) as [_ Hout].
  set (packets := assignMarkers (rawPackets encs)) in *.
  destruct (splitMessages_spec (concat (map frame_of packets)))
    as (messages & Hsplit & Hcat & Hsizes & Hcount).
  exists packets, messages.
  split; [exact Hrun|].
  split; [unfold getBluetoothPacket; rewrite Hrun; simpl; now rewrite Hout|].
  assert (Hbytes : JS.Uint8Array_from (concat (map frame_of packets))
                   = concat (map frame_of packets)).
  { rewrite <- Hout. unfold JS.Uint8Array_from. rewrite map_map.
    apply map_ext. intros v. apply Z.mod_mod. lia. }
  rewrite Hbytes in Hcat.
  split; [exact Hcat|]. split; [exact Hsizes|].
  intros ->. simpl in Hcat.
  destruct (assignMarkers_rawPackets encs) as [[_ Heq] | (p & mid & _ & Heq)];
    fold packets in Heq; rewrite Heq in Hcat; discriminate.
Qed.

End PipelineMessages.

(** X9. Over a link that accepts every write, the whole pipeline
    delivers the frames. The messages, in order, concatenate to the
    frames of the logical packets and each carries between 1 and 20
    bytes; a link that keeps what it receives ends up holding exactly
    those messages. There is a last message; the series writes it in the
    state the link has reached through the writes of the earlier
    messages, in their order, and resolves with the value of that last
    write, whatever values the earlier writes gave. *)
Theorem pipeline_delivers_frames {Link Value : Type}
    (writeValue : Link -> list Z -> Link * JS.completion Value) (link : Link)
    (frames : string)
    (placementPositions : gmap string Z) (colors : gmap string string)
    (encs : list (list Z)) :
  (forall l m, exists l' v, writeValue l m = (l', JS.Returns v)) ->
  encodedFrames placementPositions colors (JS.split "p" frames)
    = JS.Returns encs ->
  exists packets messages earlier last linkBefore linkAfter v,
    logicalPackets frames placementPositions colors = JS.Returns packets
    /\ JS.bind (getBluetoothPacket frames placementPositions colors)
               splitMessages
       = JS.Returns messages
    /\ concat messages = concat (map frame_of packets)
    /\ Forall (fun m => (1 <= length m <= 20)%nat) messages
    /\ writeCharacteristicSeries recordingWrite [] messages
       = (messages, JS.Returns (Some tt))
    /\ messages = earlier ++ [last]
    /\ linkBefore = fold_left (fun l m => fst (writeValue l m)) earlier link
    /\ writeValue linkBefore last = (linkAfter, JS.Returns v)
    /\ writeCharacteristicSeries writeValue link messages
       = (linkAfter, JS.Returns (Some v)).
Proof.
  intros Haccepts Hencs.
  destruct (pipeline_messages _ _ _ _ Hencs)
    as (packets & messages & Hrun & Hsplit & Hcat & Hsizes & Hne).
  destruct (exists_last Hne) as (earlier & last & Hlast).
  destruct (accepting_series_last writeValue Haccepts earlier last link)
    as (linkAfter & v & Hwrite & Hseries).
  exists packets, messages, earlier, last,
    (fold_left (fun l m => fst (writeValue l m)) earlier link), linkAfter, v.
  split; [exact Hrun|]. split; [exact Hsplit|]. split; [exact Hcat|].
  split; [exact Hsizes|]. split.
  - unfold writeCharacteristicSeries. rewrite recording_series.
    now destruct messages.
  - split; [exact Hlast|]. split; [reflexivity|]. split; [exact Hwrite|].
    now rewrite Hlast.
Qed.

Lemma pipeline_delivers_frames_witness :
  exists messages,
    JS.bind (getBluetoothPacket (repeatFrames 6 "p1rFF0000") ∅ ∅) splitMessages
    = JS.Returns messages
    /\ length messages = 2%nat
    /\ writeCharacteristicSeries
         (fun (written : nat) (_ : list Z) => (S written, JS.Returns written))
         0%nat messages
       = (2%nat, JS.Returns (Some 1%nat)).
Proof.
  destruct (pipeline_delivers_frames
              (fun (written : nat) (_ : list Z) => (S written, JS.Returns written))
              0%nat (repeatFrames 6 "p1rFF0000") ∅ ∅ (replicate 6 [0; 0; 224]))
    as (packets & messages & earlier & last & linkBefore & linkAfter & v
        & _ & Hsplit & _ & _ & _ & Hlast & Hbefore & Hwrite & Hseries).
  { intros l m. now exists (S l), l. }
  { vm_compute. reflexivity. }
  exists messages. split; [exact Hsplit|].
  assert (Hmessages : length messages = 2%nat).
  { vm_compute in Hsplit. injection Hsplit as <-. reflexivity. }
  assert (Hearlier : length earlier = 1%nat).
  { rewrite Hlast, length_app in Hmessages. simpl in Hmessages. lia. }
  split; [exact Hmessages|].
  rewrite Hseries. injection Hwrite as <- <-. rewrite Hbefore.
  destruct earlier as [|m1 [|m2 earlier]]; simpl in Hearlier; try lia.
  reflexivity.
Defined.

Section DeviceCache.

Context {Device : Type}.
Implicit Types (calls : list ((string -> JS.completion Device) * string)).

Lemma requestDeviceCalls_cached calls (device : Device) :
  requestDeviceCalls (Some device) calls
  = (Some device, map (fun _ => JS.Returns device) calls).
Proof.
  induction calls as [|[chooser namePrefix] calls IH]; simpl; [reflexivity|].
  now rewrite IH.
Qed.

End DeviceCache.

(** X10. Once a call of [requestDevice] has returned a device, every
    later call returns that same device, whatever name prefix it is given
    and whatever the browser would answer, and the cache still holds it
    at the end. *)
Theorem requestDevice_keeps_first {Device : Type}
    (calls : list ((string -> JS.completion Device) * string))
    (i j : nat) (device : Device) :
  snd (requestDeviceCalls None calls) !! i = Some (JS.Returns device) ->
  (i <= j < length calls)%nat ->
  snd (requestDeviceCalls None calls) !! j = Some (JS.Returns device)
  /\ fst (requestDeviceCalls None calls) = Some device.
Proof.
  revert i j. induction calls as [|[chooser namePrefix] calls IH];
    intros i j Hi Hj; [simpl in Hj; lia|].
  simpl in *. destruct (chooser namePrefix) as [d|e] eqn:Hchooser.
  - rewrite requestDeviceCalls_cached in *. simpl in *.
    assert (Hd : d = device).
    { destruct i as [|i]; simpl in Hi; [now injection Hi|].
      rewrite list_lookup_fmap in Hi.
      destruct (calls !! i); simpl in Hi; [now injection Hi | discriminate]. }
    subst d. split; [| reflexivity].
    destruct j as [|j]; [reflexivity|]. simpl.
    rewrite list_lookup_fmap.
    destruct (lookup_lt_is_Some_2 calls j ltac:(lia)) as [c ->]. reflexivity.
  - destruct (requestDeviceCalls None calls) as [final outcomes] eqn:Hrest.
    simpl in *.
    destruct i as [|i]; [discriminate|]. simpl in Hi.
    destruct j as [|j]; [lia|]. simpl.
    apply (IH i j Hi). lia.
Qed.

Lemma requestDevice_keeps_first_witness :
  snd (requestDeviceCalls None
         [(fun _ => JS.Throws (JS.Error "User cancelled the requestDevice() chooser."), "Kilter"%string);
          (fun _ => JS.Returns 7%nat, "Kilter"%string);
          (fun _ => JS.Returns 9%nat, "Tension"%string)])
    !! 2%nat = Some (JS.Returns 7%nat)
  /\ fst (requestDeviceCalls None
            [(fun _ => JS.Throws (JS.Error "User cancelled the requestDevice() chooser."), "Kilter"%string);
             (fun _ => JS.Returns 7%nat, "Kilter"%string);
             (fun _ => JS.Returns 9%nat, "Tension"%string)])
     = Some 7%nat.
Proof.
  apply (requestDevice_keeps_first _ 1%nat 2%nat 7%nat);
    [reflexivity | simpl; lia].
Defined.


(** * Lighting up the selected holds *)

Section LightUp.

Implicit Types (entries : list (string * string)).

Lemma append_cons (x : ascii) (a b : string) :
  String.append (String x a) b = String x (String.append a b).
Proof. reflexivity. Qed.

Lemma append_empty_l (a : string) : String.append EmptyString a = a.
Proof. reflexivity. Qed.

Lemma string_append_assoc (a b c : string) :
  String.append (String.append a b) c = String.append a (String.append b c).
Proof.
  induction a as [|x a IH]; [reflexivity|].
  now rewrite !append_cons, IH.
Qed.

Lemma append_empty_r (a : string) : String.append a EmptyString = a.
Proof.
  induction a as [|x a IH]; [reflexivity|]. now rewrite append_cons, IH.
Qed.

Lemma no_char_append (sep : ascii) (a b : string) :
  no_char sep (String.append a b) = no_char sep a && no_char sep b.
Proof.
  induction a as [|x a IH]; [reflexivity|].
  rewrite append_cons. cbn [no_char]. now rewrite IH, andb_assoc.
Qed.

Lemma buildFrames_from entries : forall acc,
  fold_left (fun frames '(id, color) =>
               String.append frames
                 (String "p" (String.append id (String "r" color))))
            entries acc
  = String.append acc (framesText entries).
Proof.
  induction entries as [|[id color] entries IH]; intros acc;
    cbn [fold_left framesText].
  - now rewrite append_empty_r.
  - rewrite IH, string_append_assoc. unfold entryFrame. cbn [fst snd].
    now rewrite append_cons, string_append_assoc.
Qed.

Lemma buildFrames_text entries : buildFrames entries = framesText entries.
Proof. unfold buildFrames. now rewrite buildFrames_from, append_empty_l. Qed.

Lemma buildFrames_empty entries :
  buildFrames entries = EmptyString <-> entries = [].
Proof.
  rewrite buildFrames_text. split; [| now intros ->].
  now destruct entries.
Qed.

Lemma entry_ok_frame (entry : string * string) :
  entry_ok entry = true -> no_char "p" (entryFrame entry) = true.
Proof.
  unfold entry_ok, entryFrame. intros H.
  repeat (apply andb_prop in H as [H ?]).
  rewrite no_char_append. cbn [no_char]. now rewrite H, H2.
Qed.

Lemma split_framesText (entry : string * string) entries :
  Forall (fun e => entry_ok e = true) (entry :: entries) ->
  JS.split "p" (String.append (entryFrame entry) (framesText entries))
  = entryFrame entry :: map entryFrame entries.
Proof.
  revert entry. induction entries as [|next entries IH]; intros entry Hok;
    inversion Hok as [|? ? Hentry Hrest]; subst.
  - cbn [framesText map]. rewrite append_empty_r.
    apply split_none. now apply entry_ok_frame.
  - cbn [framesText map].
    rewrite split_head by now apply entry_ok_frame.
    f_equal. now apply IH.
Qed.

Lemma encodedFrames_entries (positions : gmap string Z) entries :
  Forall (fun e => entry_ok e = true) entries ->
  encodedFrames positions ∅ (map entryFrame entries)
  = JS.Returns (map (encodeEntry positions) entries).
Proof.
  induction 1 as [|[id color] entries Hentry _ IH]; [reflexivity|].
  cbn [map encodedFrames]. unfold entryFrame at 1 2. cbn [fst snd].
  rewrite append_nonempty.
  unfold entry_ok in Hentry. cbn [fst snd] in Hentry.
  repeat (apply andb_prop in Hentry as [Hentry ?]).
  destruct (encodeFrame_returns positions ∅ id color)
    as (c & [-> | Hc] & ->); try assumption.
  - now apply negb_true_iff.
  - rewrite IH. reflexivity.
  - rewrite lookup_empty in Hc. discriminate.
Qed.

Lemma buildFrames_encoded (positions : gmap string Z) entries :
  Forall (fun e => entry_ok e = true) entries ->
  encodedFrames positions ∅ (JS.split "p" (buildFrames entries))
  = JS.Returns (map (encodeEntry positions) entries).
Proof.
  intros Hok. rewrite buildFrames_text.
  destruct entries as [|entry entries]; [reflexivity|].
  cbn [framesText JS.split]. rewrite Ascii.eqb_refl.
  rewrite (split_framesText entry entries Hok).
  cbn [encodedFrames String.length Z.of_nat Z.ltb Z.compare].
  apply (encodedFrames_entries positions (entry :: entries) Hok).
Qed.

End LightUp.

(** X11. Lighting up encodes every selected hold, once and in order:
    for entries whose ids and colours hold no [p] and no [r] (and whose
    colour names no inherited property), the packet sent for the board
    "Kilter" is the frames of the logical packets, and those packets,
    without their markers, are the triples of the entries, each the
    looked-up position and the colour of its hold. *)
Theorem lightUp_encodes_entries (KILTER_POSITIONS : gmap string Z)
    (entries : list (string * string)) :
  Forall (fun e => entry_ok e = true) entries ->
  entries <> [] ->
  exists packets,
    logicalPackets (buildFrames entries) KILTER_POSITIONS ∅
      = JS.Returns packets
    /\ lightUp KILTER_POSITIONS entries
       = JS.Returns (Illuminate "Kilter" (concat (map frame_of packets)))
    /\ concat (map (drop 1) packets)
       = concat (map (encodeEntry KILTER_POSITIONS) entries).
Proof.
  intros Hok Hne.
  pose proof (buildFrames_encoded KILTER_POSITIONS entries Hok) as Hencs.
  pose proof (encodedFrames_triples _ _ _ _ Hencs) as Htriples.
  pose proof (logicalPackets_run _ _ _ _ Hencs) as Hrun.
  destruct (wrap_sized _ (assignMarkers_sized _ Htriples)) as [_ Hout].
  eexists. split; [exact Hrun|]. split.
  - unfold lightUp. cbv zeta.
    destruct (String.eqb_spec (buildFrames entries) "") as [Hempty|_].
    + now apply buildFrames_empty in Hempty.
    + unfold getBluetoothPacket. rewrite Hrun. simpl. now rewrite Hout.
  - now apply payload_packets.
Qed.

Lemma lightUp_encodes_entries_witness :
  exists packets,
    logicalPackets (buildFrames [("5", "00FF00"); ("6", "FF0000")]%string)
      {[ "5"%string := 1024 ]} ∅
      = JS.Returns packets
    /\ lightUp {[ "5"%string := 1024 ]} [("5", "00FF00"); ("6", "FF0000")]%string
       = JS.Returns (Illuminate "Kilter" (concat (map frame_of packets)))
    /\ concat (map (drop 1) packets)
       = concat (map (encodeEntry {[ "5"%string := 1024 ]})
                     [("5", "00FF00"); ("6", "FF0000")]%string).
Proof.
  apply (lightUp_encodes_entries {[ "5"%string := 1024 ]}
           [("5", "00FF00"); ("6", "FF0000")]%string).
  - repeat constructor.
  - discriminate.
Defined.

(** X12. The page asks to select holds exactly when no hold is selected:
    with no entry nothing is encoded or sent, and with at least one entry
    the outcome is never that alert. *)
Theorem lightUp_alert_iff_empty (KILTER_POSITIONS : gmap string Z)
    (entries : list (string * string)) :
  lightUp KILTER_POSITIONS entries
    = JS.Returns (Alert "Select some holds first!")
  <-> entries = [].
Proof.
  split; [| now intros ->].
  unfold lightUp. cbv zeta.
  destruct (String.eqb_spec (buildFrames entries) "") as [Hempty|_].
  - intros _. now apply buildFrames_empty.
  - destruct (getBluetoothPacket _ _ _); simpl; discriminate.
Qed.

(** * Colours sampled from an image *)

Section PixelHex.

Lemma hex_digits_small (n : Z) :
  n < 16 -> Page.hex_digits n = String (Page.hex_char n) EmptyString.
Proof.
  intros Hn. funelim (Page.hex_digits n); [reflexivity | lia].
Qed.

Lemma hex_digits_step (n : Z) :
  16 <= n ->
  Page.hex_digits n
  = String.append (Page.hex_digits (n / 16))
                  (String (Page.hex_char (n mod 16)) EmptyString).
Proof.
  intros Hn. funelim (Page.hex_digits n); [lia | reflexivity].
Qed.

Lemma hex_digits_snoc (m d : Z) :
  0 < m -> 0 <= d < 16 ->
  Page.hex_digits (m * 16 + d)
  = String.append (Page.hex_digits m) (String (Page.hex_char d) EmptyString).
Proof.
  intros Hm Hd. rewrite hex_digits_step by lia.
  replace ((m * 16 + d) / 16) with m
    by (apply (Z.div_unique _ _ _ d); lia).
  replace ((m * 16 + d) mod 16) with d
    by (apply (Z.mod_unique _ _ m); lia).
  reflexivity.
Qed.

Lemma shl_byte (v k : Z) :
  0 <= v -> 0 <= k < 32 -> v * 2 ^ k < 2 ^ 31 ->
  JS.shl (JS.of_int v) k = v * 2 ^ k.
Proof.
  intros Hv Hk Hfit. unfold JS.shl.
  assert (0 < 2 ^ k) by (apply Z.pow_pos_nonneg; lia).
  rewrite ToInt32_of_int, (wrap32_small v) by nia.
  replace (Z.land k 31) with k.
  - rewrite Z.shiftl_mul_pow2 by lia. apply wrap32_small. nia.
  - change 31 with (Z.ones 5). rewrite Z.land_ones by lia.
    symmetry. apply Z.mod_small. lia.
Qed.

(** An uppercase hexadecimal digit. *)
Lemma upper_hex_char (d : Z) :
  0 <= d < 16 ->
  JS.hex_digit_value (Page.upper_char (Page.hex_char d)) = Some d
  /\ Ascii.eqb (Page.upper_char (Page.hex_char d)) "p" = false
  /\ Ascii.eqb (Page.upper_char (Page.hex_char d)) "r" = false
  /\ Ascii.eqb (Page.upper_char (Page.hex_char d)) "," = false
  /\ Ascii.eqb (Page.upper_char (Page.hex_char d)) ":" = false
  /\ forall rest,
       JS.inherited (String (Page.upper_char (Page.hex_char d)) rest) = false.
Proof.
  intros Hd.
  assert (d = 0 \/ d = 1 \/ d = 2 \/ d = 3 \/ d = 4 \/ d = 5 \/ d = 6 \/ d = 7
          \/ d = 8 \/ d = 9 \/ d = 10 \/ d = 11 \/ d = 12 \/ d = 13 \/ d = 14
          \/ d = 15) as Ed by lia.
  clear Hd. repeat (destruct Ed as [Ed|Ed]); subst d; repeat split.
Qed.

(** The six characters of a pixel's colour. *)
Lemma pixelToHex_digits (r g b : Z) :
  is_byte r -> is_byte g -> is_byte b ->
  pixelToHex r g b
  = String (Page.upper_char (Page.hex_char (r / 16)))
     (String (Page.upper_char (Page.hex_char (r mod 16)))
     (String (Page.upper_char (Page.hex_char (g / 16)))
     (String (Page.upper_char (Page.hex_char (g mod 16)))
     (String (Page.upper_char (Page.hex_char (b / 16)))
     (String (Page.upper_char (Page.hex_char (b mod 16))) EmptyString))))).
Proof.
  unfold is_byte. intros Hr Hg Hb. unfold pixelToHex.
  rewrite (shl_byte 1 24), (shl_byte r 16), (shl_byte g 8) by lia.
  pose proof (Z.div_mod r 16 ltac:(lia)) as Er.
  pose proof (Z.div_mod g 16 ltac:(lia)) as Eg.
  pose proof (Z.div_mod b 16 ltac:(lia)) as Eb.
  pose proof (Z.mod_pos_bound r 16 ltac:(lia)) as Hr0.
  pose proof (Z.mod_pos_bound g 16 ltac:(lia)) as Hg0.
  pose proof (Z.mod_pos_bound b 16 ltac:(lia)) as Hb0.
  assert (Hr1 : 0 <= r / 16 < 16)
    by (split; [apply Z.div_pos | apply Z.div_lt_upper_bound]; lia).
  assert (Hg1 : 0 <= g / 16 < 16)
    by (split; [apply Z.div_pos | apply Z.div_lt_upper_bound]; lia).
  assert (Hb1 : 0 <= b / 16 < 16)
    by (split; [apply Z.div_pos | apply Z.div_lt_upper_bound]; lia).
  set (r1 := r / 16) in *. set (r0 := r mod 16) in *.
  set (g1 := g / 16) in *. set (g0 := g mod 16) in *.
  set (b1 := b / 16) in *. set (b0 := b mod 16) in *.
  replace (1 * 2 ^ 24 + r * 2 ^ 16 + g * 2 ^ 8 + b)
    with ((((((1 * 16 + r1) * 16 + r0) * 16 + g1) * 16 + g0) * 16 + b1) * 16
          + b0) by lia.
  unfold Page.toString16.
  destruct (Z.ltb_spec
              ((((((1 * 16 + r1) * 16 + r0) * 16 + g1) * 16 + g0) * 16 + b1)
               * 16 + b0) 0) as [Hneg|_]; [lia|].
  rewrite !hex_digits_snoc by lia.
  rewrite (hex_digits_small 1) by lia.
  reflexivity.
Qed.

Lemma hex_byte_upper (v : Z) :
  is_byte v ->
  hex_byte (Page.upper_char (Page.hex_char (v / 16)))
           (Page.upper_char (Page.hex_char (v mod 16))) = Some v.
Proof.
  unfold is_byte. intros Hv. unfold hex_byte.
  pose proof (Z.mod_pos_bound v 16 ltac:(lia)) as H0.
  assert (H1 : 0 <= v / 16 < 16)
    by (split; [apply Z.div_pos | apply Z.div_lt_upper_bound]; lia).
  destruct (upper_hex_char _ H1) as (-> & _).
  destruct (upper_hex_char _ H0) as (-> & _).
  f_equal. pose proof (Z.div_mod v 16 ltac:(lia)). lia.
Qed.

End PixelHex.

(** X13. The colour text of a pixel is read back exactly: for channel
    values in 0..255, [pixelToHex r g b] is a string of six hexadecimal
    digits whose three pairs decode to [r], [g] and [b]. *)
Theorem pixelToHex_roundtrip (r g b : Z) :
  is_byte r -> is_byte g -> is_byte b ->
  exists r1 r2 g1 g2 b1 b2 : ascii,
    pixelToHex r g b
    = String r1 (String r2 (String g1 (String g2 (String b1 (String b2
        EmptyString)))))
    /\ hex_byte r1 r2 = Some r
    /\ hex_byte g1 g2 = Some g
    /\ hex_byte b1 b2 = Some b.
Proof.
  intros Hr Hg Hb. do 6 eexists.
  split; [now apply pixelToHex_digits|].
  split; [| split]; now apply hex_byte_upper.
Qed.

Lemma pixelToHex_roundtrip_witness :
  exists r1 r2 g1 g2 b1 b2 : ascii,
    pixelToHex 60 154 240
    = String r1 (String r2 (String g1 (String g2 (String b1 (String b2
        EmptyString)))))
    /\ hex_byte r1 r2 = Some 60
    /\ hex_byte g1 g2 = Some 154
    /\ hex_byte b1 b2 = Some 240.
Proof.
  apply (pixelToHex_roundtrip 60 154 240); unfold is_byte; lia.
Defined.

(** X14. A sampled pixel is sent with its own top bits: the colour byte
    of [pixelToHex r g b] is [(r div 32) << 5 | (g div 32) << 2 |
    (b div 64)]. *)
Theorem encodeColor_of_pixel (r g b : Z) :
  is_byte r -> is_byte g -> is_byte b ->
  encodeColor (pixelToHex r g b)
  = Z.lor (Z.lor (Z.shiftl (r / 32) 5) (Z.shiftl (g / 32) 2)) (b / 64).
Proof.
  intros Hr Hg Hb.
  rewrite pixelToHex_digits by assumption. rewrite encodeColor_formula.
  change (JS.substring 0 2 (String ?a (String ?b _)))
    with (String a (String b EmptyString)).
  change (JS.substring 2 4 (String _ (String _ (String ?a (String ?b _)))))
    with (String a (String b EmptyString)).
  change (JS.substring 4 6
            (String _ (String _ (String _ (String _ (String ?a (String ?b _)))))))
    with (String a (String b EmptyString)).
  destruct (component_hex _ _ _ (hex_byte_upper r Hr)) as (_ & -> & _).
  destruct (component_hex _ _ _ (hex_byte_upper g Hg)) as (_ & -> & _).
  destruct (component_hex _ _ _ (hex_byte_upper b Hb)) as (_ & _ & ->).
  unfold is_byte in *. now rewrite !Z.quot_div_nonneg by lia.
Qed.

Lemma encodeColor_of_pixel_witness :
  encodeColor (pixelToHex 60 154 240)
  = Z.lor (Z.lor (Z.shiftl (60 / 32) 5) (Z.shiftl (154 / 32) 2)) (240 / 64).
Proof.
  apply (encodeColor_of_pixel 60 154 240); unfold is_byte; lia.
Defined.


Section ProcessImage.

Lemma lit_spec (px : pixel) :
  lit px = true
  <-> 128 < alpha px /\ 90 < red px + green px + blue px.
Proof.
  unfold lit. cbv zeta. rewrite andb_true_iff, negb_true_iff, Z.ltb_lt.
  unfold Qle_bool, Qdiv, Qmult, Qinv, inject_Z. cbn [Qnum Qden].
  rewrite Z.leb_gt. split; intros [Ha Hs]; (split; [exact Ha | lia]).
Qed.

Lemma lookup_assign_Some (key value id color : string)
    (obj : gmap string string) :
  Page.assign key value obj !! id = Some color ->
  (key = id /\ value = color /\ key <> "__proto__"%string)
  \/ obj !! id = Some color.
Proof.
  unfold Page.assign.
  destruct (String.eqb_spec key "__proto__") as [|Hkey]; [now right|].
  destruct (decide (key = id)) as [->|Hne].
  - rewrite lookup_insert_eq. intros [= ->]. now left.
  - rewrite lookup_insert_ne by exact Hne. now right.
Qed.

Lemma processImage_from (samples : list (string * option pixel)) :
  forall (st : gmap string string) id color,
    fold_left (fun state '(id, sample) =>
                 match sample with
                 | None => state
                 | Some px =>
                     if lit px then
                       Page.assign id
                         (pixelToHex (red px) (green px) (blue px)) state
                     else state
                 end) samples st !! id = Some color ->
    st !! id = Some color
    \/ exists px, In (id, Some px) samples /\ lit px = true
                  /\ color = pixelToHex (red px) (green px) (blue px).
Proof.
  induction samples as [|[id0 sample] samples IH]; intros st id color Hc;
    simpl in Hc; [now left|].
  apply IH in Hc as [Hc | (px & Hin & Hlit & Hcolor)].
  - destruct sample as [px|]; [| now left].
    destruct (lit px) eqn:Hlit; [| now left].
    apply lookup_assign_Some in Hc as [(-> & <- & _) | Hc]; [| now left].
    right. exists px. split; [now left | now split].
  - right. exists px. split; [now right | now split].
Qed.

End ProcessImage.

(** X15. Sampling an image lights a hold only from an opaque, bright
    pixel: every colour in the resulting map is the colour text of a
    pixel sampled for that hold whose alpha exceeds 128 and whose three
    channels add up to more than 90; nothing of the previous map
    remains. *)
Theorem processImage_lights_bright (samples : list (string * option pixel))
    (id color : string) :
  processImage samples !! id = Some color ->
  exists px,
    In (id, Some px) samples
    /\ 128 < alpha px
    /\ 90 < red px + green px + blue px
    /\ color = pixelToHex (red px) (green px) (blue px).
Proof.
  intros Hc. apply processImage_from in Hc as [Hc | (px & Hin & Hlit & Hcolor)].
  - rewrite lookup_empty in Hc. discriminate.
  - apply lit_spec in Hlit as [Ha Hs]. now exists px.
Qed.

Lemma processImage_lights_bright_witness :
  exists px,
    In ("7"%string, Some px)
       [("7"%string, Some (Pixel 60 154 240 255)); ("8"%string, None)]
    /\ 128 < alpha px
    /\ 90 < red px + green px + blue px
    /\ "3C9AF0"%string = pixelToHex (red px) (green px) (blue px).
Proof.
  apply (processImage_lights_bright
           [("7"%string, Some (Pixel 60 154 240 255)); ("8"%string, None)]
           "7" "3C9AF0").
  vm_compute. reflexivity.
Defined.

(** * Sharing the hold map through the address *)

Section Share.

Implicit Types (entries : list (string * string)).

Lemma join_cons (x y : string) (rest : list string) :
  Page.join "," (x :: y :: rest)
  = String.append x (String "," (Page.join "," (y :: rest))).
Proof. reflexivity. Qed.

Lemma split_join (pieces : list string) :
  Forall (fun piece => no_char "," piece = true) pieces ->
  pieces <> [] ->
  JS.split "," (Page.join "," pieces) = pieces.
Proof.
  induction 1 as [|x pieces Hx Hrest IH]; intros Hne; [congruence|].
  destruct pieces as [|y pieces].
  - now apply split_none.
  - rewrite join_cons, split_head by exact Hx.
    f_equal. now apply IH.
Qed.

Lemma url_ok_parts (entry : string * string) :
  url_ok entry = true ->
  (0 <? Z.of_nat (String.length (fst entry))) = true
  /\ (0 <? Z.of_nat (String.length (snd entry))) = true
  /\ no_char "," (fst entry) = true /\ no_char ":" (fst entry) = true
  /\ no_char "," (snd entry) = true /\ no_char ":" (snd entry) = true.
Proof.
  unfold url_ok. intros H. repeat (apply andb_prop in H as [H ?]).
  repeat split; assumption.
Qed.

Lemma loadPair_entry (st : gmap string string) (entry : string * string) :
  url_ok entry = true ->
  loadPair st (String.append (fst entry) (String ":" (snd entry)))
  = Page.assign (fst entry) (snd entry) st.
Proof.
  intros Hok. apply url_ok_parts in Hok as (Hid & Hcolor & _ & Hid' & _ & Hcolor').
  unfold loadPair. cbv zeta.
  rewrite (split_head _ _ _ Hid'), (split_none _ _ Hcolor').
  change ([fst entry; snd entry] !! 0%nat) with (Some (fst entry)).
  change ([fst entry; snd entry] !! 1%nat) with (Some (snd entry)).
  cbn [default from_option id]. now rewrite Hid, Hcolor.
Qed.

Lemma serialize_pieces entries :
  Forall (fun e => url_ok e = true) entries ->
  Forall (fun piece => no_char "," piece = true)
         (map (fun '(id, color) => String.append id (String ":" color)) entries).
Proof.
  induction 1 as [|[id color] entries Hok _ IH]; constructor; [| exact IH].
  apply url_ok_parts in Hok as (_ & _ & Hid & _ & Hcolor & _).
  cbn [fst snd] in *. rewrite no_char_append. cbn [no_char].
  now rewrite Hid, Hcolor.
Qed.

Lemma loadPairs_entries entries : forall st,
  Forall (fun e => url_ok e = true) entries ->
  fold_left loadPair
    (map (fun '(id, color) => String.append id (String ":" color)) entries) st
  = fold_left (fun state entry => Page.assign (fst entry) (snd entry) state)
              entries st.
Proof.
  induction entries as [|[id color] entries IH]; intros st Hok; [reflexivity|].
  inversion Hok as [|? ? Hentry Hrest]; subst.
  cbn [map fold_left].
  pose proof (loadPair_entry st (id, color) Hentry) as Hpair.
  cbn [fst snd] in Hpair. rewrite Hpair.
  now apply IH.
Qed.

Lemma serialize_nonempty entries :
  entries <> [] ->
  (0 <? Z.of_nat (String.length (serialize entries))) = true.
Proof.
  destruct entries as [|[id color] entries]; [congruence|]. intros _.
  unfold serialize.
  destruct entries as [|next entries]; cbn [map].
  - apply append_nonempty.
  - rewrite join_cons. apply append_nonempty.
Qed.




End Share.

(** X16. Sharing and loading give the hold map back: for entries whose
    ids and colours are not empty and hold no comma and no colon,
    loading the parameter that the share button writes gives exactly the
    map obtained by assigning the entries in order; with no entry the
    parameter is deleted and loading leaves the map as it is. *)
Theorem share_then_load (entries : list (string * string))
    (st : gmap string string) :
  Forall (fun e => url_ok e = true) entries ->
  loadFromUrl (shareParam entries) st
  = match entries with
    | [] => st
    | _ :: _ => assignAll entries
    end.
Proof.
  intros Hok. destruct entries as [|entry entries]; [reflexivity|].
  unfold shareParam, loadFromUrl. cbv zeta.
  rewrite !serialize_nonempty by discriminate.
  unfold serialize. rewrite split_join.
  - now apply loadPairs_entries.
  - now apply serialize_pieces.
  - discriminate.
Qed.

Lemma share_then_load_witness :
  loadFromUrl (shareParam [("5", "00FF00"); ("6", "FF0000")]%string)
              {[ "9"%string := "123456"%string ]}
  = assignAll [("5", "00FF00"); ("6", "FF0000")]%string.
Proof.
  apply (share_then_load [("5", "00FF00"); ("6", "FF0000")]%string
           {[ "9"%string := "123456"%string ]}).
  repeat constructor.
Defined.



(** * The hold map under the pointer *)

Section Handlers.

Lemma assign_insert (key value : string) (obj : gmap string string) :
  key <> "__proto__"%string -> Page.assign key value obj = <[key := value]> obj.
Proof.
  intros Hkey. unfold Page.assign.
  now destruct (String.eqb_spec key "__proto__").
Qed.

Lemma mousedown_in_sync (id selectedColor : string) (pg : page) :
  id <> "__proto__"%string ->
  in_sync pg -> in_sync (mousedown id selectedColor pg).
Proof.
  intros Hid Hsync id' stroke. unfold mousedown. cbv zeta.
  case_bool_decide as Hcurrent; cbn [state strokes].
  - destruct (decide (id = id')) as [<-|Hne].
    + rewrite lookup_insert_eq, lookup_delete_eq. now intros [= <-].
    + rewrite lookup_insert_ne, lookup_delete_ne by exact Hne. apply Hsync.
  - rewrite assign_insert by exact Hid.
    destruct (decide (id = id')) as [<-|Hne].
    + rewrite !lookup_insert_eq. now intros [= <-].
    + rewrite !lookup_insert_ne by exact Hne. apply Hsync.
Qed.

Lemma mouseenter_in_sync (id selectedColor : string) (pg : page) :
  id <> "__proto__"%string ->
  in_sync pg -> in_sync (mouseenter id selectedColor pg).
Proof.
  intros Hid Hsync. unfold mouseenter.
  destruct (isDrawing pg); [| exact Hsync].
  intros id' stroke. cbn [state strokes]. rewrite assign_insert by exact Hid.
  destruct (decide (id = id')) as [<-|Hne].
  - rewrite !lookup_insert_eq. now intros [= <-].
  - rewrite !lookup_insert_ne by exact Hne. apply Hsync.
Qed.

Lemma clearAll_in_sync (pg : page) : in_sync (clearAll pg).
Proof.
  intros id stroke. unfold clearAll. cbn [state strokes].
  rewrite lookup_fmap, lookup_empty.
  destruct (strokes pg !! id); simpl; [now intros [= <-] | discriminate].
Qed.

Lemma handle_in_sync (pg : page) (ev : event) :
  event_hold ev <> Some "__proto__"%string ->
  in_sync pg -> in_sync (handle pg ev).
Proof.
  destruct ev as [id c | id c | |]; cbn [event_hold handle]; intros Hid Hsync.
  - apply mousedown_in_sync; [congruence | exact Hsync].
  - apply mouseenter_in_sync; [congruence | exact Hsync].
  - exact Hsync.
  - apply clearAll_in_sync.
Qed.

End Handlers.

(** X18. Clicking a hold twice with the same colour undoes the first
    click when the hold was unlit or lit in that colour; when it was lit
    in another colour, the first click recolours it and the second
    removes it. *)
Theorem click_twice (id selectedColor : string) (pg : page) :
  id <> "__proto__"%string ->
  (state pg !! id = None \/ state pg !! id = Some selectedColor ->
   state (mousedown id selectedColor (mousedown id selectedColor pg))
   = state pg)
  /\ (forall other,
        state pg !! id = Some other -> other <> selectedColor ->
        state (mousedown id selectedColor (mousedown id selectedColor pg))
        = delete id (state pg)).
Proof.
  intros Hid. split.
  - intros [Hnone | Hsame]; unfold mousedown; cbv zeta.
    + rewrite (bool_decide_eq_false_2 (state pg !! id = Some selectedColor))
        by (rewrite Hnone; discriminate).
      cbn [state]. rewrite assign_insert by exact Hid.
      rewrite lookup_insert_eq, bool_decide_eq_true_2 by reflexivity.
      cbn [state]. rewrite delete_insert_eq. now apply delete_id.
    + rewrite (bool_decide_eq_true_2 _ Hsame). cbn [state].
      rewrite lookup_delete_eq, bool_decide_eq_false_2 by discriminate.
      cbn [state]. rewrite assign_insert by exact Hid.
      rewrite insert_delete_eq. now apply insert_id.
  - intros other Hother Hne. unfold mousedown. cbv zeta.
    rewrite (bool_decide_eq_false_2 (state pg !! id = Some selectedColor))
      by (rewrite Hother; congruence).
    cbn [state]. rewrite assign_insert by exact Hid.
    rewrite lookup_insert_eq, bool_decide_eq_true_2 by reflexivity.
    cbn [state]. apply delete_insert_eq.
Qed.

Lemma click_twice_witness :
  state (mousedown "5" "00FF00"
           (mousedown "5" "00FF00"
              (PageState {[ "6"%string := "FF0000"%string ]} ∅ false)))
  = {[ "6"%string := "FF0000"%string ]}.
Proof.
  apply (proj1 (click_twice "5" "00FF00"
                  (PageState {[ "6"%string := "FF0000"%string ]} ∅ false)
                  ltac:(discriminate))).
  left. reflexivity.
Defined.

(** X19. The circles stay in step with the hold map: if every circle
    shows what the map holds for it (the colour after [#], or
    [transparent]), it still does after any sequence of clicks, drags,
    releases and clearings on holds other than [__proto__]. *)
Theorem events_keep_in_sync (events : list event) (pg : page) :
  Forall (fun ev => event_hold ev <> Some "__proto__"%string) events ->
  in_sync pg ->
  in_sync (fold_left handle events pg).
Proof.
  revert pg. induction events as [|ev events IH]; intros pg Hevents Hsync;
    [exact Hsync|].
  inversion Hevents as [|? ? Hev Hrest]; subst. cbn [fold_left].
  apply IH; [exact Hrest | now apply handle_in_sync].
Qed.

Lemma events_keep_in_sync_witness :
  in_sync (fold_left handle
             [MouseDown "5" "00FF00"; MouseEnter "6" "00FF00"; MouseUp;
              MouseDown "5" "00FF00"]
             (PageState ∅ (gset_to_gmap "transparent"%string {[ "5"; "6" ]}%string) false)).
Proof.
  apply (events_keep_in_sync
           [MouseDown "5" "00FF00"; MouseEnter "6" "00FF00"; MouseUp;
            MouseDown "5" "00FF00"]).
  - repeat constructor; discriminate.
  - intros id stroke. cbn [state strokes]. rewrite lookup_empty.
    rewrite lookup_gset_to_gmap_Some. now intros [_ <-].
Defined.

(** X20. Moving over the circles paints only while the button is held:
    after a release any number of moves leave the page as it is, and
    after a press a move over a hold gives it the selected colour. *)
Theorem drag_paints_only_when_pressed (moves : list (string * string))
    (pg : page) (id selectedColor id' color' : string) :
  fold_left handle (map (fun move => MouseEnter (fst move) (snd move)) moves)
            (mouseup pg)
  = mouseup pg
  /\ (id' <> "__proto__"%string ->
      state (mouseenter id' color' (mousedown id selectedColor pg)) !! id'
      = Some color').
Proof.
  split.
  - induction moves as [|[i c] moves IH]; [reflexivity|].
    cbn [map fold_left handle fst snd]. exact IH.
  - intros Hid'. unfold mouseenter.
    assert (Hdrawing : isDrawing (mousedown id selectedColor pg) = true).
    { unfold mousedown. cbv zeta. now case_bool_decide. }
    rewrite Hdrawing. cbn [state].
    rewrite assign_insert by exact Hid'. apply lookup_insert_eq.
Qed.

Lemma drag_paints_only_when_pressed_witness :
  state (mouseenter "6" "00FF00"
           (mousedown "5" "00FF00" (PageState ∅ ∅ false))) !! "6"%string
  = Some "00FF00"%string.
Proof.
  apply (proj2 (drag_paints_only_when_pressed [] (PageState ∅ ∅ false)
                  "5" "00FF00" "6" "00FF00")).
  discriminate.
Defined.


(** * When getBluetoothPacket throws *)

Section Throwing.

Variable placementPositions : gmap string Z.

Lemma split_second_none (sep : ascii) (s : string) :
  JS.split sep s !! 1%nat = None <-> no_char sep s = true.
Proof.
  split.
  - induction s as [|c s IH]; [reflexivity|]. cbn [JS.split no_char].
    destruct (Ascii.eqb_spec c sep) as [->|Hc].
    + destruct (split_nonempty sep s) as (piece & pieces & ->). discriminate.
    + destruct (split_nonempty sep s) as (piece & pieces & Hs).
      rewrite Hs in *. intros Hnone. rewrite IH by exact Hnone.
      now destruct (Ascii.eqb_spec c sep).
  - intros Hs. now rewrite (split_none _ _ Hs).
Qed.

Lemma encodeFrame_no_table (frame : string) :
  (0 <? Z.of_nat (String.length frame)) = true ->
  (frame_without_colour frame = true
   /\ encodeFrame placementPositions ∅ frame = JS.Throws JS.TypeError)
  \/ (frame_without_colour frame = false
      /\ exists e, encodeFrame placementPositions ∅ frame = JS.Returns e).
Proof.
  intros Hlen. unfold frame_without_colour, encodeFrame. cbv zeta.
  rewrite Hlen, lookup_empty. cbn [andb].
  destruct (JS.split "r" frame !! 1%nat) as [role|]; cbn [default from_option].
  - unfold Datatypes.id. destruct (JS.inherited role).
    + now left.
    + right. split; [reflexivity | now eexists].
  - now left.
Qed.

Lemma encodedFrames_no_table (frames : list string) :
  (existsb frame_without_colour frames = true
   /\ encodedFrames placementPositions ∅ frames = JS.Throws JS.TypeError)
  \/ (existsb frame_without_colour frames = false
      /\ exists encs,
           encodedFrames placementPositions ∅ frames = JS.Returns encs).
Proof.
  induction frames as [|frame frames IH]; cbn [existsb encodedFrames].
  - right. split; [reflexivity | now eexists].
  - destruct (0 <? Z.of_nat (String.length frame)) eqn:Hlen.
    + destruct (encodeFrame_no_table frame Hlen) as [[-> ->] | [-> [e ->]]].
      * now left.
      * cbn [orb JS.bind].
        destruct IH as [[-> ->] | [-> [encs ->]]]; [now left | right].
        split; [reflexivity | now eexists].
    + replace (frame_without_colour frame) with false
        by (unfold frame_without_colour; now rewrite Hlen).
      exact IH.
Qed.

End Throwing.

(** X21. Called without a colour table, as the page does,
    [getBluetoothPacket] throws a TypeError exactly when some non-empty
    frame has no [r] or has a role that names an inherited property;
    otherwise it returns a byte stream. A placement that is missing from
    the position table never makes it fail. *)
Theorem getBluetoothPacket_throws_iff (frames : string)
    (placementPositions : gmap string Z) :
  (existsb frame_without_colour (JS.split "p" frames) = true
   -> getBluetoothPacket frames placementPositions ∅ = JS.Throws JS.TypeError)
  /\ (existsb frame_without_colour (JS.split "p" frames) = false
      -> exists stream,
           getBluetoothPacket frames placementPositions ∅ = JS.Returns stream)
  /\ (forall frame,
        frame_without_colour frame = true
        <-> (0 <? Z.of_nat (String.length frame)) = true
            /\ (no_char "r" frame = true
                \/ exists role, JS.split "r" frame !! 1%nat = Some role
                                /\ JS.inherited role = true)).
Proof.
  split; [| split].
  - intros Hbad.
    destruct (encodedFrames_no_table placementPositions (JS.split "p" frames))
      as [[_ Hthrow] | [Hgood _]]; [| congruence].
    now apply getBluetoothPacket_throws.
  - intros Hgood.
    destruct (encodedFrames_no_table placementPositions (JS.split "p" frames))
      as [[Hbad _] | [_ [encs Hencs]]]; [congruence|].
    unfold getBluetoothPacket.
    rewrite (logicalPackets_run _ _ _ _ Hencs). now eexists.
  - intros frame. unfold frame_without_colour.
    rewrite andb_true_iff, <- split_second_none.
    destruct (JS.split "r" frame !! 1%nat) as [role|].
    + split; intros [Hlen H]; (split; [exact Hlen|]).
      * right. now exists role.
      * destruct H as [H | (role' & [= <-] & H)]; [discriminate | exact H].
    + split; intros [Hlen _]; (split; [exact Hlen|]); [now left | reflexivity].
Qed.

Lemma getBluetoothPacket_throws_iff_witness :
  getBluetoothPacket "p5r00FF00p6" {[ "5"%string := 1024 ]} ∅
  = JS.Throws JS.TypeError
  /\ exists stream,
       getBluetoothPacket "p9rZZZZZZ" {[ "5"%string := 1024 ]} ∅
       = JS.Returns stream.
Proof.
  split.
  - apply (proj1 (getBluetoothPacket_throws_iff "p5r00FF00p6"
                    {[ "5"%string := 1024 ]})). reflexivity.
  - apply (proj1 (proj2 (getBluetoothPacket_throws_iff "p9rZZZZZZ"
                           {[ "5"%string := 1024 ]}))). reflexivity.
Defined.


(** * Role markers *)

Section PacketCount.

Lemma rawPackets_count (encs : list (list Z)) :
  Forall (fun e => length e = 3%nat /\ Forall is_byte e) encs ->
  JS.len (rawPackets encs) = Z.max 1 ((JS.len encs + 83) / 84).
Proof.
  intros Htriples. unfold JS.len, rawPackets.
  rewrite length_app. cbn [length].
  destruct encs as [|e0 encs']; [reflexivity|].
  destruct (splitterAfter_count (e0 :: encs') Htriples ltac:(discriminate))
    as (q & k & Hn & Hk & Hq & _).
  rewrite Hq, Hn.
  assert (Hceil : (Z.of_nat (84 * q + k) + 83) / 84 = Z.of_nat q + 1).
  { symmetry. apply (Z.div_unique _ _ _ (Z.of_nat k - 1)); lia. }
  rewrite Hceil. lia.
Qed.

End PacketCount.

(** C2. The logical packets are the packets the loop has built, as many
    as they are, [max 1 (ceil (N / 84))] for [N] pairs, with nothing but
    their marker bytes rewritten. When one logical packet is produced its
    marker (index 0) is ONLY = 84; when several are, the first is marked
    FIRST = 82, the last LAST = 83 and every packet in between
    MIDDLE = 81. An input with no pair gives the single packet [[84]].
    [N] pairs with [3 * N <= 252] give exactly one packet, marked ONLY;
    more pairs give more than one. *)
Theorem role_markers (frames : string) (placementPositions : gmap string Z)
    (colors : gmap string string) (encs : list (list Z)) :
  encodedFrames placementPositions colors (JS.split "p" frames)
    = JS.Returns encs ->
  exists packets,
    logicalPackets frames placementPositions colors = JS.Returns packets
    /\ length packets = length (rawPackets encs)
    /\ map (drop 1) packets = map (drop 1) (rawPackets encs)
    /\ JS.len packets = Z.max 1 ((JS.len encs + 83) / 84)
    /\ (252 < 3 * Z.of_nat (length encs) -> (1 < length packets)%nat)
    /\ (1 <= length packets)%nat
    /\ (length packets = 1%nat -> markerAt packets 0 = Some PACKET_ONLY)
    /\ ((1 < length packets)%nat ->
        markerAt packets 0 = Some PACKET_FIRST
        /\ markerAt packets (length packets - 1) = Some PACKET_LAST
        /\ forall i : nat, (0 < i < length packets - 1)%nat ->
             markerAt packets i = Some PACKET_MIDDLE)
    /\ (encs = [] -> packets = [[PACKET_ONLY]])
    /\ (3 * Z.of_nat (length encs) <= 252 ->
        length packets = 1%nat /\ markerAt packets 0 = Some PACKET_ONLY).
Proof.
  intros Hencs.
  pose proof (encodedFrames_triples _ _ _ _ Hencs) as Htriples.
  pose proof (assignMarkers_total encs Htriples) as [Hlen _].
  pose proof (payload_assignMarkers encs) as Hbody.
  pose proof (rawPackets_count encs Htriples) as Hcount.
  rewrite (logicalPackets_run _ _ _ _ Hencs).
  eexists. split; [reflexivity|].
  split; [exact Hlen|]. split; [exact Hbody|].
  split; [unfold JS.len in *; rewrite Hlen; exact Hcount|].
  split.
  { intros HN. unfold JS.len in Hcount.
    assert (2 <= (Z.of_nat (length encs) + 83) / 84)
      by (apply Z.div_le_lower_bound; lia).
    lia. }
  clear Hlen Hbody Hcount.
  assert (Hfew : 3 * Z.of_nat (length encs) <= 252 ->
                 resultArray (splitterAfter encs) = []).
  { intros HN. apply (fold_pushFrame_few encs initialSplitter 0);
      [exact Htriples | reflexivity | reflexivity | lia]. }
  pose proof (rawPackets_ok encs Htriples) as Hraw. unfold rawPackets in Hraw.
  apply Forall_app in Hraw as [Hres _].
  destruct (assignMarkers_rawPackets encs) as [[Hnil ->] | (p & mid & Hcons & ->)].
  - split; [simpl; lia|].
    split; [intros _; unfold markerAt; simpl; apply setMarker_head|].
    split; [simpl; intros; lia|].
    split; [intros ->; reflexivity|].
    intros _. split; [reflexivity|].
    unfold markerAt. simpl. apply setMarker_head.
  - rewrite Hcons in Hres, Hfew. inversion Hres as [|? ? _ Hmid]; subst.
    cbn [length]. rewrite length_app. cbn [length].
    split; [lia|]. split; [intros; lia|].
    split; [intros _; split; [| split] |].
    + unfold markerAt. simpl. apply setMarker_head.
    + unfold markerAt.
      replace (S (length mid + 1) - 1)%nat with (S (length mid + 0)) by lia.
      rewrite lookup_cons_ne_0 by lia. cbn [Nat.pred].
      rewrite lookup_app_r by lia.
      replace (length mid + 0 - length mid)%nat with 0%nat by lia.
      simpl. apply setMarker_head.
    + intros i Hi. unfold markerAt.
      destruct i as [|i]; [lia|].
      rewrite lookup_cons_ne_0 by lia. cbn [Nat.pred].
      rewrite lookup_app_l by lia.
      destruct (lookup_lt_is_Some_2 mid i ltac:(lia)) as [q Hq].
      rewrite Hq.
      rewrite Forall_lookup in Hmid. now destruct (Hmid i q Hq) as (_ & ? & _).
    + split; [intros ->; discriminate Hcons|].
      intros HN. specialize (Hfew HN). discriminate.
Qed.

Lemma role_markers_witness :
  (exists packets,
     logicalPackets "p5r00FF00" {[ "5"%string := 1024 ]} ∅ = JS.Returns packets
     /\ length packets = 1%nat
     /\ markerAt packets 0 = Some PACKET_ONLY)
  /\ (exists packets,
        logicalPackets (repeatFrames 169 "p1rFF0000") ∅ ∅ = JS.Returns packets
        /\ length packets = 3%nat
        /\ map (drop 1) packets
           = [concat (replicate 84 [0; 0; 224]);
              concat (replicate 84 [0; 0; 224]); [0; 0; 224]]
        /\ markerAt packets 0 = Some PACKET_FIRST
        /\ markerAt packets 1 = Some PACKET_MIDDLE
        /\ markerAt packets 2 = Some PACKET_LAST).
Proof.
  split.
  - destruct (role_markers "p5r00FF00" {[ "5"%string := 1024 ]} ∅ [[0; 4; 28]])
      as (packets & Hrun & _ & _ & _ & _ & _ & _ & _ & _ & Hone).
    { vm_compute. reflexivity. }
    exists packets. split; [exact Hrun|]. apply Hone. simpl. lia.
  - destruct (role_markers (repeatFrames 169 "p1rFF0000") ∅ ∅
                (replicate 169 [0; 0; 224]))
      as (packets & Hrun & _ & Hbody & Hcount & _ & _ & _ & Hmany & _ & _).
    { vm_compute. reflexivity. }
    change (Z.max 1 ((JS.len (replicate 169 [0; 0; 224]) + 83) / 84))
      with 3 in Hcount.
    assert (H3 : length packets = 3%nat) by (unfold JS.len in Hcount; lia).
    destruct (Hmany ltac:(lia)) as (Hfirst & Hlast & Hmiddle).
    rewrite H3 in Hlast, Hmiddle.
    exists packets. split; [exact Hrun|]. split; [exact H3|].
    split; [rewrite Hbody; vm_compute; reflexivity|].
    split; [exact Hfirst|]. split; [apply Hmiddle; lia | exact Hlast].
Defined.
